(** * Unit-commitment model builder and solve driver of [phase3_uc.py]

    A shallow embedding of [piecewise_segments], [build_uc_model] and
    [solve_uc].  Numbers are modelled as exact rationals [Q]; Python
    dictionaries keyed by period and bus are stdpp [gmap]s; the Pyomo model
    is a record holding its index sets and its list of named linear
    constraints; Python exceptions are the left side of a sum type. *)

From Stdlib Require Import QArith Qround String List Lia ZArith Lqa Sorted Permutation.
From stdpp Require Import base gmap list.
Import ListNotations.
Open Scope string_scope.
Open Scope Q_scope.

(* ------------------------------------------------------------------ *)
(** ** Python exceptions and the error monad *)

Inductive ExcType :=
  | RuntimeError | ApplicationError | ValueError | KeyError
  | ZeroDivisionError | OtherError.

Record Exc := mkExc { exc_type : ExcType; exc_msg : string }.

(** [inl] is a raised exception, [inr] a normal return. *)
Definition res (A : Type) := (Exc + A)%type.

Definition ret {A} (x : A) : res A := inr x.
Definition raise {A} (e : Exc) : res A := inl e.
Definition bind {A B} (m : res A) (k : A -> res B) : res B :=
  match m with inl e => inl e | inr x => k x end.

Notation "'let*' x ':=' m 'in' k" := (bind m (fun x => k))
  (at level 200, x name, m at level 100, k at level 200).

Fixpoint mapM {A B} (f : A -> res B) (l : list A) : res (list B) :=
  match l with
  | [] => ret []
  | x :: l' => let* y := f x in let* ys := mapM f l' in ret (y :: ys)
  end.

(** Python's [range(a, b)] over integers. *)
Definition zrange (a b : Z) : list Z :=
  map (fun i => a + Z.of_nat i)%Z (seq 0 (Z.to_nat (b - a))).

Definition Qgtb (x y : Q) : bool := negb (Qle_bool x y).

(* ------------------------------------------------------------------ *)
(** ** [np.linspace] and [piecewise_segments] *)

(** [np.linspace(start, stop, num)] with [endpoint=True]: the points
    [i * step + start] with [step = (stop - start) / (num - 1)], the last
    point overwritten by [stop] when [num > 1]. *)
Definition linspace (start stop : Q) (num : nat) : list Q :=
  let div := (num - 1)%nat in
  let delta := stop - start in
  let y := map (fun i =>
              (if (0 <? div)%nat
               then inject_Z (Z.of_nat i) * (delta / inject_Z (Z.of_nat div))
               else inject_Z (Z.of_nat i) * delta) + start)
             (seq 0 num) in
  if (1 <? num)%nat then removelast y ++ [stop] else y.

(** [piecewise_segments(pmin, pmax, nseg)]; the segment count is a
    natural number. *)
Definition piecewise_segments (pmin pmax : Q) (nseg : nat) : list (Q * Q) :=
  if Qle_bool pmax pmin then [(pmin, pmax)]
  else
    let pts := linspace pmin pmax (S nseg) in
    map (fun i => (nth i pts 0, nth (S i) pts 0)) (seq 0 (length pts - 1)).

(** The marginal cost of one segment, from the loop over [segs] in
    [build_uc_model]: [a] and [b] are [g.get('cost_a')] and
    [g.get('cost_b')]. *)
Definition seg_marginal_cost (a b : option Q) (seg : Q * Q) : Q :=
  let mid := (1 # 2) * (fst seg + snd seg) in
  match a, b with
  | Some a', Some b' => 2 * a' * mid + b'
  | _, Some b' => b'
  | _, None => 0
  end.

Definition seg_costs (a b : option Q) (segs : list (Q * Q)) : list Q :=
  map (seg_marginal_cost a b) segs.

(* ------------------------------------------------------------------ *)
(** ** Input snapshot ([data]) *)

(** One entry of [data['gens']]; the keys read with [g.get(key, default)]
    are options, [name] and [bus] are required. *)
Record Gen := mkGen {
  g_name : string; g_bus : Z;
  g_pmin : option Q; g_pmax : option Q;
  g_ramp_up : option Q; g_ramp_down : option Q;
  g_startup_cost : option Q; g_shutdown_cost : option Q;
  g_min_up : option Z; g_min_down : option Z;
  g_cost_a : option Q; g_cost_b : option Q }.

(** One entry of [data['lines']]. *)
Record Line := mkLine {
  l_name : string; l_from_bus : Z; l_to_bus : Z;
  l_reactance : Q; l_limit : Q }.

(** [data]: [gens] and [demand] are required, the other keys optional.
    Time series are dictionaries period -> bus -> value. *)
Record Data := mkData {
  d_gens : list Gen;
  d_buses : option (list Z);
  d_lines : option (list Line);
  d_demand : gmap Z (gmap Z Q);
  d_renewable : option (gmap Z (gmap Z Q));
  d_reserve_spinning : option (gmap Z Q);
  d_reserve_nonspinning : option (gmap Z Q) }.

Definition dummy_gen : Gen :=
  mkGen "" 0 None None None None None None None None None None.
Definition dummy_line : Line := mkLine "" 0 0 0 0.

(** A dictionary comprehension [{g['name']: ... for g in gens}] keeps the
    last entry of each name: every per-generator parameter is read from the
    last generator carrying that name. *)
Definition gen_of (gens : list Gen) (n : string) : Gen :=
  fold_left (fun acc g => if String.eqb (g_name g) n then g else acc)
    gens dummy_gen.
Definition line_of (lines : list Line) (n : string) : Line :=
  fold_left (fun acc l => if String.eqb (l_name l) n then l else acc)
    lines dummy_line.

Definition pmin_p (gens : list Gen) (n : string) : Q :=
  default 0 (g_pmin (gen_of gens n)).
Definition pmax_p (gens : list Gen) (n : string) : Q :=
  default 0 (g_pmax (gen_of gens n)).
Definition ramp_up_p (gens : list Gen) (n : string) : Q :=
  default (pmax_p gens n) (g_ramp_up (gen_of gens n)).
Definition ramp_down_p (gens : list Gen) (n : string) : Q :=
  default (pmax_p gens n) (g_ramp_down (gen_of gens n)).
Definition startup_p (gens : list Gen) (n : string) : Q :=
  default 0 (g_startup_cost (gen_of gens n)).
Definition shutdown_p (gens : list Gen) (n : string) : Q :=
  default 0 (g_shutdown_cost (gen_of gens n)).
Definition min_up_p (gens : list Gen) (n : string) : Z :=
  default 1%Z (g_min_up (gen_of gens n)).
Definition min_down_p (gens : list Gen) (n : string) : Z :=
  default 1%Z (g_min_down (gen_of gens n)).

(** [seg_bounds[name]] and [seg_cost[name]]. *)
Definition seg_bounds (gens : list Gen) (nseg : nat) (n : string)
  : list (Q * Q) :=
  piecewise_segments (pmin_p gens n) (pmax_p gens n) nseg.
Definition seg_cost (gens : list Gen) (nseg : nat) (n : string) : list Q :=
  seg_costs (g_cost_a (gen_of gens n)) (g_cost_b (gen_of gens n))
    (seg_bounds gens nseg n).

(** [sorted(data.get('buses', []))]. *)
Fixpoint insert_Z (x : Z) (l : list Z) : list Z :=
  match l with
  | [] => [x]
  | y :: l' => if (x <=? y)%Z then x :: l else y :: insert_Z x l'
  end.
Definition sort_Z (l : list Z) : list Z := fold_right insert_Z [] l.

(** [d.get(t, {}).get(b, 0.0)] and [d.get(t, 0.0)]. *)
Definition get2 (d : gmap Z (gmap Z Q)) (t b : Z) : Q :=
  default 0 (default ∅ (d !! t) !! b).
Definition get1 (d : gmap Z Q) (t : Z) : Q := default 0 (d !! t).

(* ------------------------------------------------------------------ *)
(** ** Pyomo variables, linear expressions and constraints *)

(** [u], [v], [w], [p], [p_seg], [theta], [flow], [r_sp], [r_ns]. *)
Inductive Var :=
  | Vu (g : string) (t : Z) | Vv (g : string) (t : Z) | Vw (g : string) (t : Z)
  | Vp (g : string) (t : Z) | Vpseg (g : string) (s : nat) (t : Z)
  | Vtheta (b : Z) (t : Z) | Vflow (l : string) (t : Z)
  | Vrsp (g : string) (t : Z) | Vrns (g : string) (t : Z).

(** Declared domains: [Binary] for [u], [v], [w]; [NonNegativeReals] for
    [p], [p_seg], [r_sp], [r_ns]; [Reals] for [theta] and [flow]. *)
Definition var_domain (x : Var) (q : Q) : Prop :=
  match x with
  | Vu _ _ | Vv _ _ | Vw _ _ => q = 0 \/ q = 1
  | Vp _ _ | Vpseg _ _ _ | Vrsp _ _ | Vrns _ _ => 0 <= q
  | Vtheta _ _ | Vflow _ _ => True
  end.

(** A Pyomo linear expression: coefficient-variable terms plus a constant.
    A Python expression with no variable in it is a plain number. *)
Record LinExpr := mkLE { le_terms : list (Q * Var); le_const : Q }.

Definition lcst (c : Q) : LinExpr := mkLE [] c.
Definition lvar (x : Var) : LinExpr := mkLE [(1, x)] 0.
Definition ladd (e1 e2 : LinExpr) : LinExpr :=
  mkLE (le_terms e1 ++ le_terms e2) (le_const e1 + le_const e2).
Definition lscale (c : Q) (e : LinExpr) : LinExpr :=
  mkLE (map (fun '(k, x) => (c * k, x)) (le_terms e)) (c * le_const e).
Definition lsub (e1 e2 : LinExpr) : LinExpr := ladd e1 (lscale (-1) e2).
(** Python's [sum(...)], starting from [0]. *)
Definition lsum (l : list LinExpr) : LinExpr := fold_left ladd l (lcst 0).

Definition eval (σ : Var -> Q) (e : LinExpr) : Q :=
  fold_right (fun '(k, x) acc => k * σ x + acc) (le_const e) (le_terms e).

Inductive Sense := SLe | SGe | SEq.

(** A relational expression [lhs <= rhs], [lhs >= rhs] or [lhs == rhs]. *)
Record Con := mkCon { c_lhs : LinExpr; c_sense : Sense; c_rhs : LinExpr }.

Definition sat (σ : Var -> Q) (c : Con) : Prop :=
  match c_sense c with
  | SLe => eval σ (c_lhs c) <= eval σ (c_rhs c)
  | SGe => eval σ (c_rhs c) <= eval σ (c_lhs c)
  | SEq => eval σ (c_lhs c) == eval σ (c_rhs c)
  end.

(** The index of each constraint of the model. *)
Inductive ConName :=
  | CSegSum (g : string) (t : Z) | CSegBounds (g : string) (s : nat) (t : Z)
  | CGenLb (g : string) (t : Z) | CGenUb (g : string) (t : Z)
  | CSegCommit (g : string) (t : Z)
  | CRampUp (g : string) (t : Z) | CRampDown (g : string) (t : Z)
  | CStartLink (g : string) (t : Z) | CShutLink (g : string) (t : Z)
  | CMinUp (g : string) (t : Z) | CMinDown (g : string) (t : Z)
  | CBalance (b : Z) (t : Z) | CDcFlow (l : string) (t : Z) | CRef (t : Z)
  | CLinePos (l : string) (t : Z) | CLineNeg (l : string) (t : Z)
  | CSpinAvail (t : Z) | CSpinReq (t : Z) | CNsReq (t : Z)
  | CRspBound (g : string) (t : Z) | CRnsBound (g : string) (t : Z).

(** Pyomo refuses a rule whose relational expression contains no
    variable: Python has already evaluated it to a [bool]. *)
Definition mkcon (nm : ConName) (lhs : LinExpr) (s : Sense) (rhs : LinExpr)
  : res (ConName * Con) :=
  match le_terms lhs, le_terms rhs with
  | [], [] => raise (mkExc ValueError "Constraint does not have a proper value")
  | _, _ => ret (nm, mkCon lhs s rhs)
  end.

(** Dividing an expression by a number ([expr / x]). *)
Definition ldiv (e : LinExpr) (x : Q) : res LinExpr :=
  if Qeq_bool x 0 then raise (mkExc ZeroDivisionError "float division by zero")
  else ret (lscale (/ x) e).

(* ------------------------------------------------------------------ *)
(** ** [build_uc_model] *)

(** The values [build_uc_model] computes before creating any variable. *)
Record Params := mkParams {
  P_horizon : Z; P_nseg : nat;
  P_T : list Z; P_G : list string; P_B : list Z; P_L : list string;
  P_gens : list Gen; P_lines : list Line;
  P_demand : gmap Z (gmap Z Q); P_ren : gmap Z (gmap Z Q);
  P_rs : gmap Z Q; P_rns : gmap Z Q }.

Section Builder.
Variable P : Params.

Definition pmin_ (g : string) := pmin_p (P_gens P) g.
Definition pmax_ (g : string) := pmax_p (P_gens P) g.
Definition line_ (l : string) := line_of (P_lines P) l.
Definition segs_ (g : string) := seg_bounds (P_gens P) (P_nseg P) g.

(** [model.S[g]], [model.GS], the product [G x T] and [model.GST]. *)
Definition S_ (g : string) : list nat := seq 0 (length (segs_ g)).
Definition GT : list (string * Z) :=
  flat_map (fun g => map (fun t => (g, t)) (P_T P)) (P_G P).
Definition seg_index : list (string * nat) :=
  flat_map (fun g => map (fun s => (g, s)) (S_ g)) (P_G P).
Definition GST : list (string * nat * Z) :=
  flat_map (fun '(g, s) => map (fun t => (g, s, t)) (P_T P)) seg_index.
Definition BT : list (Z * Z) :=
  flat_map (fun b => map (fun t => (b, t)) (P_T P)) (P_B P).
Definition LT : list (string * Z) :=
  flat_map (fun l => map (fun t => (l, t)) (P_T P)) (P_L P).
Definition T_after1 : list Z := filter (fun t => (2 <=? t)%Z) (P_T P).
Definition GT_after1 : list (string * Z) :=
  flat_map (fun g => map (fun t => (g, t)) T_after1) (P_G P).

Definition seg_lo (g : string) (s : nat) : Q := fst (nth s (segs_ g) (0, 0)).
Definition seg_hi (g : string) (s : nat) : Q := snd (nth s (segs_ g) (0, 0)).
Definition seg_mc (g : string) (s : nat) : Q :=
  nth s (seg_cost (P_gens P) (P_nseg P) g) 0.

Definition lzero := lcst 0.
Definition psegs (g : string) (t : Z) : LinExpr :=
  lsum (map (fun s => lvar (Vpseg g s t)) (S_ g)).

Definition seg_sum_rule '((g, t) : string * Z) :=
  mkcon (CSegSum g t) (lvar (Vp g t)) SEq (psegs g t).
Definition seg_bounds_rule '((g, s, t) : string * nat * Z) :=
  mkcon (CSegBounds g s t) (lvar (Vpseg g s t)) SLe
    (lcst (seg_hi g s - seg_lo g s)).
Definition gen_lb_rule '((g, t) : string * Z) :=
  mkcon (CGenLb g t) (lsub (lvar (Vp g t)) (lscale (pmin_ g) (lvar (Vu g t))))
    SGe lzero.
Definition gen_ub_rule '((g, t) : string * Z) :=
  mkcon (CGenUb g t) (lsub (lvar (Vp g t)) (lscale (pmax_ g) (lvar (Vu g t))))
    SLe lzero.
Definition seg_commit_rule '((g, t) : string * Z) :=
  mkcon (CSegCommit g t) (lsub (psegs g t) (lscale (pmax_ g) (lvar (Vu g t))))
    SLe lzero.
Definition ramp_up_rule '((g, t) : string * Z) :=
  mkcon (CRampUp g t)
    (lsub (lsub (lvar (Vp g t)) (lvar (Vp g (t - 1)))) (lcst (ramp_up_p (P_gens P) g)))
    SLe lzero.
Definition ramp_down_rule '((g, t) : string * Z) :=
  mkcon (CRampDown g t)
    (lsub (lsub (lvar (Vp g (t - 1))) (lvar (Vp g t))) (lcst (ramp_down_p (P_gens P) g)))
    SLe lzero.
(** [(0 if t==1 else m.u[g, t-1])]. *)
Definition u_prev (g : string) (t : Z) : LinExpr :=
  if (t =? 1)%Z then lcst 0 else lvar (Vu g (t - 1)).
Definition start_link_rule '((g, t) : string * Z) :=
  mkcon (CStartLink g t)
    (ladd (lsub (lvar (Vv g t)) (lvar (Vu g t))) (u_prev g t)) SGe lzero.
Definition shut_link_rule '((g, t) : string * Z) :=
  mkcon (CShutLink g t)
    (ladd (lsub (lvar (Vw g t)) (u_prev g t)) (lvar (Vu g t))) SGe lzero.

(** [min_up_idx] and [min_down_idx]: for every generator whose minimum
    exceeds 1, the starts [range(1, horizon - mu + 2)]. *)
Definition min_up_idx : list (string * Z) :=
  flat_map (fun g =>
    let mu := min_up_p (P_gens P) g in
    if (1 <? mu)%Z
    then map (fun t => (g, t)) (zrange 1 (P_horizon P - mu + 2)) else [])
    (P_G P).
Definition min_down_idx : list (string * Z) :=
  flat_map (fun g =>
    let md := min_down_p (P_gens P) g in
    if (1 <? md)%Z
    then map (fun t => (g, t)) (zrange 1 (P_horizon P - md + 2)) else [])
    (P_G P).

Definition min_up_rule '((g, t) : string * Z) :=
  let mu := min_up_p (P_gens P) g in
  mkcon (CMinUp g t)
    (lsub (lsum (map (fun k => lvar (Vv g k)) (zrange t (t + mu))))
       (lvar (Vu g (t + mu - 1))))
    SLe lzero.
Definition min_down_rule '((g, t) : string * Z) :=
  let md := min_down_p (P_gens P) g in
  mkcon (CMinDown g t)
    (ladd (lsum (map (fun k => lvar (Vw g k)) (zrange t (t + md))))
       (lvar (Vu g (t + md - 1))))
    SLe (lcst 1).

(** [nodal_balance(m, b, t)]. *)
Definition balance_rhs (b t : Z) : Q :=
  get2 (P_demand P) t b - get2 (P_ren P) t b.
Definition nodal_balance '((b, t) : Z * Z) :=
  let gen_inj := lsum (map (fun g => lvar (Vp g t))
                   (filter (fun g => (g_bus (gen_of (P_gens P) g) =? b)%Z) (P_G P))) in
  let inflow := lsum (map (fun l => lvar (Vflow l t))
                   (filter (fun l => (l_to_bus (line_ l) =? b)%Z) (P_L P))) in
  let outflow := lsum (map (fun l => lvar (Vflow l t))
                   (filter (fun l => (l_from_bus (line_ l) =? b)%Z) (P_L P))) in
  let rhs := balance_rhs b t in
  mkcon (CBalance b t)
    (lsub (lsub (ladd gen_inj inflow) outflow) (lcst rhs)) SEq lzero.

(** [m.theta[b, t]]: an index outside [model.B] raises [KeyError]. *)
Definition theta_at (b t : Z) : res LinExpr :=
  if existsb (Z.eqb b) (P_B P) then ret (lvar (Vtheta b t))
  else raise (mkExc KeyError "Index is not valid for indexed component theta").

(** [dc_flow(m, l, t)]. *)
Definition dc_flow '((l, t) : string * Z) :=
  let x := l_reactance (line_ l) in
  if Qgtb x 0 then
    let* th_f := theta_at (l_from_bus (line_ l)) t in
    let* th_t := theta_at (l_to_bus (line_ l)) t in
    let* q := ldiv (lsub th_f th_t) x in
    mkcon (CDcFlow l t) (lsub (lvar (Vflow l t)) q) SEq lzero
  else mkcon (CDcFlow l t) (lvar (Vflow l t)) SEq lzero.

Definition ref_rule (ref_bus t : Z) :=
  mkcon (CRef t) (lvar (Vtheta ref_bus t)) SEq lzero.
Definition ref_cons : res (list (ConName * Con)) :=
  match P_B P with
  | [] => ret []
  | ref_bus :: _ => mapM (ref_rule ref_bus) (P_T P)
  end.

Definition line_pos_rule '((l, t) : string * Z) :=
  mkcon (CLinePos l t) (lsub (lvar (Vflow l t)) (lcst (l_limit (line_ l)))) SLe lzero.
Definition line_neg_rule '((l, t) : string * Z) :=
  mkcon (CLineNeg l t)
    (lsub (lscale (-1) (lvar (Vflow l t))) (lcst (l_limit (line_ l)))) SLe lzero.

Definition spin_avail_rule (t : Z) :=
  mkcon (CSpinAvail t)
    (lsub (lsum (map (fun g => lsub (lscale (pmax_ g) (lvar (Vu g t))) (lvar (Vp g t)))
                  (P_G P)))
       (lcst (get1 (P_rs P) t))) SGe lzero.
Definition spin_req_rule (t : Z) :=
  mkcon (CSpinReq t)
    (lsub (lsum (map (fun g => lvar (Vrsp g t)) (P_G P))) (lcst (get1 (P_rs P) t)))
    SGe lzero.
Definition ns_req_rule (t : Z) :=
  mkcon (CNsReq t)
    (lsub (lsum (map (fun g => lvar (Vrns g t)) (P_G P))) (lcst (get1 (P_rns P) t)))
    SGe lzero.

(** [r_sp_bound] and [r_ns_bound]. *)
Definition r_sp_bound_rule '((g, t) : string * Z) :=
  mkcon (CRspBound g t)
    (lsub (lvar (Vrsp g t)) (lsub (lcst (pmax_ g)) (lvar (Vp g t)))) SLe lzero.
Definition r_ns_bound_rule '((g, t) : string * Z) :=
  mkcon (CRnsBound g t)
    (lsub (lvar (Vrns g t))
       (ladd (lscale (pmax_ g) (lsub (lcst 1) (lvar (Vu g t))))
             (lsub (lcst (pmax_ g)) (lvar (Vp g t)))))
    SLe lzero.

(** [obj_rule]. *)
Definition obj_expr : LinExpr :=
  let fuel := lsum (map (fun '(g, s, t) => lscale (seg_mc g s) (lvar (Vpseg g s t))) GST) in
  let start := lsum (flat_map (fun g => map (fun t =>
                 lscale (startup_p (P_gens P) g) (lvar (Vv g t))) (P_T P)) (P_G P)) in
  let shut := lsum (flat_map (fun g => map (fun t =>
                 lscale (shutdown_p (P_gens P) g) (lvar (Vw g t))) (P_T P)) (P_G P)) in
  ladd (ladd fuel start) shut.

(** The constraint components, in the order the source declares them. *)
Definition families : list (res (list (ConName * Con))) :=
  [ mapM seg_sum_rule GT; mapM seg_bounds_rule GST;
    mapM gen_lb_rule GT; mapM gen_ub_rule GT; mapM seg_commit_rule GT;
    mapM ramp_up_rule GT_after1; mapM ramp_down_rule GT_after1;
    mapM start_link_rule GT; mapM shut_link_rule GT;
    mapM min_up_rule min_up_idx; mapM min_down_rule min_down_idx;
    mapM nodal_balance BT; mapM dc_flow LT; ref_cons;
    mapM line_pos_rule LT; mapM line_neg_rule LT;
    mapM spin_avail_rule (P_T P); mapM spin_req_rule (P_T P);
    mapM ns_req_rule (P_T P);
    mapM r_sp_bound_rule GT; mapM r_ns_bound_rule GT ].

End Builder.

(** The built Pyomo model. *)
Record UCModel := mkModel {
  m_params : Params;
  m_MINUP : list (string * Z); m_MINDOWN : list (string * Z);
  m_cons : list (ConName * Con);
  m_obj : LinExpr }.

Definition zero_series (T : list Z) : gmap Z Q :=
  list_to_map (map (fun t => (t, 0)) T).
Definition zero_ren (T buses : list Z) : gmap Z (gmap Z Q) :=
  list_to_map (map (fun t => (t, list_to_map (map (fun b => (b, 0)) buses))) T).

(** [Param(model.G, initialize=gen_bus, within=model.B)]. *)
Definition check_gen_bus (P : Params) (g : string) : res unit :=
  if existsb (Z.eqb (g_bus (gen_of (P_gens P) g))) (P_B P) then ret tt
  else raise (mkExc ValueError "Invalid parameter value: gen_bus not in domain B").

(** Everything before [model.u = Var(...)]: the sets and parameters. *)
Definition build_params (data : Data) (horizon : Z) (nseg : nat) : res Params :=
  let T := zrange 1 (horizon + 1) in
  let gens := d_gens data in
  let buses := sort_Z (default [] (d_buses data)) in
  let lines := default [] (d_lines data) in
  let P := mkParams horizon nseg T (map g_name gens) buses (map l_name lines)
             gens lines (d_demand data)
             (default (zero_ren T buses) (d_renewable data))
             (default (zero_series T) (d_reserve_spinning data))
             (default (zero_series T) (d_reserve_nonspinning data)) in
  let* _ := mapM (check_gen_bus P) (P_G P) in
  ret P.

Definition build_uc_model (data : Data) (horizon : Z) (nseg : nat) : res UCModel :=
  let* P := build_params data horizon nseg in
  let* css := mapM (fun c => c) (families P) in
  ret (mkModel P (min_up_idx P) (min_down_idx P) (concat css) (obj_expr P)).

(** A feasible point: every variable in its declared domain and every
    constraint satisfied. *)
Definition feasible (σ : Var -> Q) (M : UCModel) : Prop :=
  (forall x, var_domain x (σ x)) /\
  (forall nc, In nc (m_cons M) -> sat σ (snd nc)).

(* ------------------------------------------------------------------ *)
(** ** [solve_uc] *)

#[global] Instance Var_eq_dec : EqDecision Var.
Proof. solve_decision. Defined.

(** The Pyomo model object as the solve driver sees it: the built model,
    the current variable values, the fixed variables and the [dual]
    suffix. *)
Record SolveState := mkSS {
  ss_model : UCModel;
  ss_val : Var -> Q;
  ss_fixed : list (Var * Z);
  ss_dual : ConName -> option Q }.

(** [SolverFactory(name).solve(model)], with the [time_limit] option set
    when given; a backend either raises or returns the model with its
    variable values and duals loaded. *)
Definition Backend := string -> option Q -> SolveState -> res SolveState.

(** [model.dual = Suffix(direction=Suffix.IMPORT)]: a fresh, empty suffix. *)
Definition attach_dual (st : SolveState) : SolveState :=
  mkSS (ss_model st) (ss_val st) (ss_fixed st) (fun _ => None).

(** Python's [round] on a number: to the nearest integer, ties to even. *)
Definition py_round (q : Q) : Z :=
  let f := Qfloor q in
  let d := q - inject_Z f in
  if Qlt_le_dec d (1 # 2) then f
  else if Qeq_bool d (1 # 2) then (if Z.even f then f else f + 1)%Z
  else (f + 1)%Z.

(** [var.fix(k)]: records the fixing and sets the value. *)
Definition fix_var (st : SolveState) (x : Var) (k : Z) : SolveState :=
  mkSS (ss_model st)
    (fun y => if decide (x = y) then inject_Z k else ss_val st y)
    (ss_fixed st ++ [(x, k)]) (ss_dual st).

Definition fix_gt (st : SolveState) '((g, t) : string * Z) : SolveState :=
  let st := fix_var st (Vu g t) (py_round (ss_val st (Vu g t))) in
  let st := fix_var st (Vv g t) (py_round (ss_val st (Vv g t))) in
  fix_var st (Vw g t) (py_round (ss_val st (Vw g t))).

(** The loop [for g in model.G: for t in model.T: ...fix(...)]. *)
Definition fix_binaries (st : SolveState) : SolveState :=
  fold_left fix_gt (GT (m_params (ss_model st))) st.

Definition exc_str (e : option Exc) : string :=
  match e with None => "None" | Some e => exc_msg e end.

(** The [for solver_name in solver_candidates: try ... else: raise] loop:
    returns the first backend that solves, with the solved model. *)
Fixpoint try_candidates (backend : Backend) (time_limit : option Q)
    (cands : list string) (last_exc : option Exc) (st : SolveState)
    : res (string * SolveState) :=
  match cands with
  | [] => raise (mkExc RuntimeError
                   ("No solver succeeded. Last error: " ++ exc_str last_exc))
  | n :: rest =>
      match backend n time_limit st with
      | inr st' => ret (n, st')
      | inl ex => try_candidates backend time_limit rest (Some ex) st
      end
  end.

Definition candidates (solver_candidates : option (list string))
    (solver_name : option string) : list string :=
  match solver_name with
  | Some n => [n]
  | None => default ["cbc"; "glpk"] solver_candidates
  end.

(** The LP re-solve with the MILP backend, falling back to [glpk]. *)
Definition lp_resolve (backend : Backend) (used : string) (st : SolveState)
    : res (string * SolveState) :=
  match backend used None st with
  | inr st' => ret (used, st')
  | inl ex =>
      if negb (String.eqb used "glpk") then
        match backend "glpk" None st with
        | inr st' => ret ("glpk", st')
        | inl ex2 =>
            raise (mkExc RuntimeError
              ("LP re-solve failed on both " ++ used ++ " and glpk: "
               ++ exc_msg ex ++ ", " ++ exc_msg ex2))
        end
      else raise ex
  end.

(** [lmp[(b, t)] = model.dual.get(model.balance[b, t], None)]. *)
Definition extract_lmp (st : SolveState) : list ((Z * Z) * option Q) :=
  map (fun '(b, t) => ((b, t), ss_dual st (CBalance b t)))
    (BT (m_params (ss_model st))).

Definition solve_uc (backend : Backend) (st : SolveState)
    (solver_candidates : option (list string)) (solver_name : option string)
    (time_limit : option Q)
    : res (SolveState * list ((Z * Z) * option Q)) :=
  let cands := candidates solver_candidates solver_name in
  let st0 := attach_dual st in
  let* r := try_candidates backend time_limit cands None st0 in
  let st1 := fix_binaries (snd r) in
  let* r2 := lp_resolve backend (fst r) st1 in
  ret (snd r2, extract_lmp (snd r2)).

(* ------------------------------------------------------------------ *)
(** ** [export_results] *)

(** Python's [int] on a number: truncation toward zero. *)
Definition py_int (q : Q) : Z := Z.quot (Qnum q) (Zpos (Qden q)).

(** One row of [unit_schedules.csv]. *)
Record SchedRow := mkRow {
  row_gen : string; row_time : Z; row_u : Z; row_p : Q; row_v : Z; row_w : Z }.

(** [lmp.get(key, None)] on the dictionary [solve_uc] fills in order: the
    last value stored under the key, [None] when there is none. *)
Definition lmp_get (lmp : list ((Z * Z) * option Q)) (k : Z * Z) : option Q :=
  fold_left (fun acc '(k', v) => if bool_decide (k' = k) then v else acc) lmp None.

(** The rows of [unit_schedules.csv] and of [lmps.csv]; creating the
    directory and formatting the CSV files are not modelled. *)
Definition export_schedule (st : SolveState) : list SchedRow :=
  map (fun '(g, t) =>
         mkRow g t (py_int (ss_val st (Vu g t))) (ss_val st (Vp g t))
           (py_int (ss_val st (Vv g t))) (py_int (ss_val st (Vw g t))))
    (GT (m_params (ss_model st))).
Definition export_lmps (st : SolveState) (lmp : list ((Z * Z) * option Q))
    : list (Z * Z * option Q) :=
  map (fun '(b, t) => (b, t, lmp_get lmp (b, t))) (BT (m_params (ss_model st))).
Definition export_results (st : SolveState) (lmp : list ((Z * Z) * option Q))
    : list SchedRow * list (Z * Z * option Q) :=
  (export_schedule st, export_lmps st lmp).

(* ------------------------------------------------------------------ *)
(** ** The demo snapshot of [run_uc_example.create_demo_data] *)

(** Generators, lines and buses as the script writes them; the decimal
    cost coefficients and reactances are read as exact rationals.  The
    demand, renewable and reserve series (built with [np.sin]) are left as
    parameters. *)
Definition demo_gens : list Gen :=
  [ mkGen "Coal_1" 1 (Some 150) (Some 500) (Some 50) (Some 50) (Some 1000)
      (Some 200) (Some 6%Z) (Some 4%Z) (Some (1 # 4000)) (Some 22);
    mkGen "Gas_CC_1" 2 (Some 100) (Some 400) (Some 80) (Some 80) (Some 800)
      (Some 150) (Some 3%Z) (Some 2%Z) (Some (1 # 1250)) (Some 35);
    mkGen "Gas_Peak_1" 3 (Some 0) (Some 200) (Some 100) (Some 100) (Some 300)
      (Some 50) (Some 1%Z) (Some 1%Z) (Some (1 # 500)) (Some 50);
    mkGen "Hydro_1" 1 (Some 10) (Some 120) (Some 60) (Some 60) (Some 0)
      (Some 0) (Some 1%Z) (Some 1%Z) (Some 0) (Some 8) ].
Definition demo_lines : list Line :=
  [ mkLine "L12" 1 2 (1 # 20) 300; mkLine "L23" 2 3 (2 # 25) 250;
    mkLine "L13" 1 3 (3 # 25) 200; mkLine "L34" 3 4 (3 # 50) 400;
    mkLine "L24" 2 4 (1 # 10) 180 ].
Definition demo_buses : list Z := [1; 2; 3; 4]%Z.
Definition demo_data (demand renewable : gmap Z (gmap Z Q))
    (reserve_spinning reserve_nonspinning : gmap Z Q) : Data :=
  mkData demo_gens (Some demo_buses) (Some demo_lines) demand (Some renewable)
    (Some reserve_spinning) (Some reserve_nonspinning).

(* ------------------------------------------------------------------ *)
(** ** Auxiliary definitions used by the properties *)

(** The minimum-window constraints come from the window indices. *)
Definition from_min_windows (P : Params) (y : ConName * Con) : Prop :=
  match fst y with
  | CMinUp g t => In (g, t) (min_up_idx P)
  | CMinDown g t => In (g, t) (min_down_idx P)
  | _ => True
  end.

(** The same parameters with other demand and renewable series. *)
Definition set_forecasts (P : Params) (dem ren : gmap Z (gmap Z Q)) : Params :=
  mkParams (P_horizon P) (P_nseg P) (P_T P) (P_G P) (P_B P) (P_L P)
    (P_gens P) (P_lines P) dem ren (P_rs P) (P_rns P).

Definition is_ok {A} (r : res A) : bool :=
  match r with inr _ => true | inl _ => false end.

(** A decision procedure for [sat], to check a point on a concrete model. *)
Definition satb (σ : Var -> Q) (c : Con) : bool :=
  match c_sense c with
  | SLe => Qle_bool (eval σ (c_lhs c)) (eval σ (c_rhs c))
  | SGe => Qle_bool (eval σ (c_rhs c)) (eval σ (c_lhs c))
  | SEq => Qeq_bool (eval σ (c_lhs c)) (eval σ (c_rhs c))
  end.

(** Whether [needle] occurs in [hay]. *)
Definition contains (needle hay : string) : bool :=
  match String.index 0 needle hay with Some _ => true | None => false end.

(* ------------------------------------------------------------------ *)
(** ** Concrete scenarios *)

(** One generator ([pmin = 0], [pmax = 10], [b = 20]) on bus 1, no line,
    no demand. *)
Definition gen_c2 : Gen :=
  mkGen "G1" 1 (Some 0) (Some 10) None None None None None None (Some 0) (Some 20).
Definition data_c2 : Data := mkData [gen_c2] (Some [1%Z]) None ∅ None None None.

(** The point where the unit is off and carries 10 MW of spinning reserve. *)
Definition sigma_c2 (x : Var) : Q := if decide (x = Vrsp "G1" 1) then 10 else 0.

(** A generator with [pmax < pmin], a negative ramp, a negative cost
    coefficient and [min_up = 0]. *)
Definition gen_c3 : Gen :=
  mkGen "G1" 1 (Some 10) (Some 5) (Some (-1)) None None None (Some 0%Z) None
    (Some 0) (Some (-3)).
Definition data_c3 : Data := mkData [gen_c3] (Some [1%Z]) None ∅ None None None.

(** A generator with a quadratic coefficient but no linear one. *)
Definition gen_c6 : Gen :=
  mkGen "A" 1 (Some 0) (Some 10) None None None None None None (Some 1) None.

Definition empty_params : Params :=
  mkParams 0 0 [] [] [] [] [] [] ∅ ∅ ∅ ∅.
Definition empty_model : UCModel := mkModel empty_params [] [] [] (lcst 0).

Definition model_c2 : UCModel :=
  match build_uc_model data_c2 1 1 with inr M => M | inl _ => empty_model end.
Definition st_c2 : SolveState := mkSS model_c2 (fun _ => 0) [] (fun _ => None).

(** [cbc] solves the MILP but fails once binaries are fixed; [glpk]
    always fails. *)
Definition backend_c1 : Backend :=
  fun n _ st =>
    if String.eqb n "cbc" then
      match ss_fixed st with
      | [] => inr st
      | _ => inl (mkExc ApplicationError "cbc: no LP solution")
      end
    else inl (mkExc ApplicationError "glpk: no LP solution").

(** Every backend is missing. *)
Definition backend_c4 : Backend :=
  fun _ _ _ => inl (mkExc ApplicationError "executable not found").

(** A generator with [min_up = 3] and [min_down = 2] over four periods. *)
Definition gen_c7 : Gen :=
  mkGen "G1" 1 (Some 0) (Some 10) None None None None (Some 3%Z) (Some 2%Z)
    (Some 0) (Some 20).
Definition data_c7 : Data := mkData [gen_c7] (Some [1%Z]) None ∅ None None None.
Definition model_c7 : UCModel :=
  match build_uc_model data_c7 4 1 with inr M => M | inl _ => empty_model end.

(** Two buses joined by a line of reactance [1/10] and by one of
    reactance [0]. *)
Definition lines_c8 : list Line :=
  [mkLine "L1" 1 2 (1 # 10) 100; mkLine "L0" 1 2 0 100].
Definition data_c8 : Data :=
  mkData [gen_c2] (Some [1%Z; 2%Z]) (Some lines_c8) ∅ None None None.
Definition model_c8 : UCModel :=
  match build_uc_model data_c8 1 1 with inr M => M | inl _ => empty_model end.
(** A line ending at a bus outside the bus list. *)
Definition data_c8_bad : Data :=
  mkData [gen_c2] (Some [1%Z]) (Some [mkLine "L9" 1 9 (1 # 10) 100]) ∅ None None None.

(** A generator on bus 1 whose bus list is [[2]]. *)
Definition data_c3_bad : Data := mkData [gen_c2] (Some [2%Z]) None ∅ None None None.

(** A quadratic cost [a = 1/10], [b = 20] over [0 .. 12]. *)
Definition gen_c9 : Gen :=
  mkGen "G1" 1 (Some 0) (Some 12) None None None None None None
    (Some (1 # 10)) (Some 20).

(** Demand of 7 at bus 1 in period 1, and nothing else. *)
Definition dem_c10 : gmap Z (gmap Z Q) := {[ 1%Z := {[ 1%Z := 7 ]} ]}.

(** The same snapshot with other demand, renewable and reserve series. *)
Definition set_series (data : Data) (dem : gmap Z (gmap Z Q))
    (ren : option (gmap Z (gmap Z Q))) (rs rns : option (gmap Z Q)) : Data :=
  mkData (d_gens data) (d_buses data) (d_lines data) dem ren rs rns.

(** Whether [x] is one of [u], [v], [w] at the index [p]. *)
Definition is_bin_at (p : string * Z) (x : Var) : bool :=
  match x with
  | Vu g t | Vv g t | Vw g t => bool_decide ((g, t) = p)
  | _ => false
  end.
Definition binvar_of (l : list (string * Z)) (x : Var) : bool :=
  existsb (fun p => is_bin_at p x) l.

(** A point given by the values of some variables, [0] elsewhere. *)
Definition point (l : list (Var * Q)) (x : Var) : Q :=
  match find (fun '(y, _) => bool_decide (y = x)) l with
  | Some (_, q) => q
  | None => 0
  end.

(** Python's [sum] over a list of numbers. *)
Definition qsum (l : list Q) : Q := fold_right Qplus 0 l.

(** One generator ([pmin = 2], [pmax = 10], [min_up = 2]) on bus 1, with
    a demand of 5 in both periods. *)
Definition gen_x : Gen :=
  mkGen "G1" 1 (Some 2) (Some 10) None None None None (Some 2%Z) None
    (Some 0) (Some 20).
Definition dem_x : gmap Z (gmap Z Q) :=
  {[ 1%Z := {[ 1%Z := 5 ]}; 2%Z := {[ 1%Z := 5 ]} ]}.
Definition data_x : Data := mkData [gen_x] (Some [1%Z]) None dem_x None None None.
Definition model_x : UCModel :=
  match build_uc_model data_x 2 1 with inr M => M | inl _ => empty_model end.
(** The unit on in both periods, started in period 1, producing 5. *)
Definition sigma_x : Var -> Q :=
  point [(Vu "G1" 1, 1); (Vu "G1" 2, 1); (Vv "G1" 1, 1);
         (Vp "G1" 1, 5); (Vp "G1" 2, 5);
         (Vpseg "G1" 0 1, 5); (Vpseg "G1" 0 2, 5)].

Definition model_c3 : UCModel :=
  match build_uc_model data_c3 1 1 with inr M => M | inl _ => empty_model end.

(** A backend that solves by returning the model as it is. *)
Definition backend_id : Backend := fun _ _ st => inr st.

(** One generator on bus 1 feeding a demand of 5 on bus 2 through the
    line [L1] (reactance [1/10], limit 100), over one period. *)
Definition gen_y : Gen :=
  mkGen "G1" 1 (Some 0) (Some 10) None None None None None None (Some 0) (Some 20).
Definition data_y : Data :=
  mkData [gen_y] (Some [1%Z; 2%Z]) (Some [mkLine "L1" 1 2 (1 # 10) 100])
    {[ 1%Z := {[ 2%Z := 5 ]} ]} None None None.
Definition model_y : UCModel :=
  match build_uc_model data_y 1 1 with inr M => M | inl _ => empty_model end.
(** The unit on, producing 5, the flow 5 from bus 1 to bus 2. *)
Definition sigma_y : Var -> Q :=
  point [(Vu "G1" 1, 1); (Vv "G1" 1, 1); (Vp "G1" 1, 5); (Vpseg "G1" 0 1, 5);
         (Vflow "L1" 1, 5); (Vtheta 2 1, -1 # 2)].

(** One generator with [pmin = pmax = 5] on bus 1 and no demand, over one
    period; the feasible point leaves every variable at 0. *)
Definition gen_z : Gen :=
  mkGen "G1" 1 (Some 5) (Some 5) None None None None None None (Some 0) (Some 20).
Definition data_z : Data :=
  mkData [gen_z] (Some [1%Z]) None {[ 1%Z := {[ 1%Z := 0 ]} ]} None None None.
Definition model_z : UCModel :=
  match build_uc_model data_z 1 1 with inr M => M | inl _ => empty_model end.
Definition sigma_z : Var -> Q := point [].

Ltac in_list := vm_compute; repeat (first [left; reflexivity | right]).

(* ================================================================== *)
(** * Properties *)

(** ** The segmenter *)

Lemma nth_map_seq0 {A} (f : nat -> A) (n i : nat) (d : A) :
  (i < n)%nat -> nth i (map f (seq 0 n)) d = f i.
Proof.
  intros Hi.
  rewrite nth_indep with (d' := f 0%nat) by (rewrite length_map, length_seq; lia).
  rewrite map_nth, seq_nth by lia. reflexivity.
Qed.

Lemma linspace_spec (a b : Q) (N : nat) :
  (1 <= N)%nat ->
  length (linspace a b (S N)) = S N /\
  (forall i, (i < N)%nat ->
     nth i (linspace a b (S N)) 0
     = inject_Z (Z.of_nat i) * ((b - a) / inject_Z (Z.of_nat N)) + a) /\
  nth N (linspace a b (S N)) 0 = b.
Proof.
  intros HN. unfold linspace.
  replace (S N - 1)%nat with N by lia.
  destruct (0 <? N)%nat eqn:E; [| apply Nat.ltb_ge in E; lia].
  destruct (1 <? S N)%nat eqn:E2; [| apply Nat.ltb_ge in E2; lia].
  rewrite seq_S, map_app. cbn [map]. rewrite removelast_last.
  repeat split.
  - rewrite length_app, length_map, length_seq. simpl. lia.
  - intros i Hi. rewrite app_nth1 by (rewrite length_map, length_seq; lia).
    rewrite nth_map_seq0 by lia. reflexivity.
  - rewrite app_nth2 by (rewrite length_map, length_seq; lia).
    rewrite length_map, length_seq, Nat.sub_diag. reflexivity.
Qed.

Lemma Qle_bool_false (x y : Q) : x < y -> Qle_bool y x = false.
Proof.
  intros H. destruct (Qle_bool y x) eqn:E; [| reflexivity].
  apply Qle_bool_iff in E. exfalso. apply (Qlt_not_le x y); assumption.
Qed.

Lemma segments_shape (pmin pmax : Q) (N : nat) :
  pmin < pmax -> (1 <= N)%nat ->
  length (piecewise_segments pmin pmax N) = N /\
  forall i, (i < N)%nat ->
    nth i (piecewise_segments pmin pmax N) (0, 0)
    = (nth i (linspace pmin pmax (S N)) 0, nth (S i) (linspace pmin pmax (S N)) 0).
Proof.
  intros Hlt HN. unfold piecewise_segments. rewrite Qle_bool_false by exact Hlt.
  destruct (linspace_spec pmin pmax N HN) as [Hlen _]. rewrite Hlen.
  replace (S N - 1)%nat with N by lia. split.
  - rewrite length_map, length_seq. reflexivity.
  - intros i Hi. rewrite nth_map_seq0 by exact Hi. reflexivity.
Qed.

(** The width of each segment and the links between consecutive ones. *)
Lemma segments_links (pmin pmax : Q) (N : nat) :
  pmin < pmax -> (1 <= N)%nat ->
  let segs := piecewise_segments pmin pmax N in
  fst (nth 0 segs (0, 0)) == pmin /\
  snd (nth (N - 1) segs (0, 0)) = pmax /\
  (forall i, (S i < N)%nat -> snd (nth i segs (0, 0)) = fst (nth (S i) segs (0, 0))) /\
  (forall i, (i < N)%nat ->
     snd (nth i segs (0, 0)) - fst (nth i segs (0, 0))
     == (pmax - pmin) / inject_Z (Z.of_nat N)).
Proof.
  intros Hlt HN segs. subst segs.
  destruct (segments_shape pmin pmax N Hlt HN) as [_ Hnth].
  destruct (linspace_spec pmin pmax N HN) as [_ [Hpt Hlast]].
  assert (HNq : ~ inject_Z (Z.of_nat N) == 0).
  { rewrite inject_Z_injective with (b := 0%Z). lia. }
  repeat split.
  - rewrite Hnth by lia. simpl. rewrite Hpt by lia. simpl.
    unfold inject_Z at 1. field. exact HNq.
  - rewrite Hnth by lia. simpl. replace (S (N - 1)) with N by lia. exact Hlast.
  - intros i Hi. rewrite (Hnth i) by lia. rewrite (Hnth (S i)) by lia. reflexivity.
  - intros i Hi. rewrite Hnth by exact Hi. simpl.
    rewrite (Hpt i Hi).
    destruct (Nat.eq_dec (S i) N) as [Heq | Hne].
    + rewrite Heq, Hlast. rewrite <- Heq. rewrite <- Heq in HNq.
      rewrite Nat2Z.inj_succ, <- Z.add_1_r, inject_Z_plus in *. field. exact HNq.
    + rewrite (Hpt (S i)) by lia.
      rewrite Nat2Z.inj_succ, <- Z.add_1_r, inject_Z_plus. field. exact HNq.
Qed.

(** C5: for [N >= 1] and [pmax > pmin] the segmenter returns [N]
    consecutive sub-ranges of equal width [(pmax - pmin) / N], the first
    starting at [pmin], the last ending at [pmax], each ending where the
    next starts; for [pmax <= pmin] it returns the single range
    [(pmin, pmax)]. *)
Theorem piecewise_segments_contract (pmin pmax : Q) (N : nat) :
  ((1 <= N)%nat -> pmin < pmax ->
   let segs := piecewise_segments pmin pmax N in
   length segs = N /\
   fst (nth 0 segs (0, 0)) == pmin /\
   snd (nth (N - 1) segs (0, 0)) = pmax /\
   (forall i, (S i < N)%nat -> snd (nth i segs (0, 0)) = fst (nth (S i) segs (0, 0))) /\
   (forall i, (i < N)%nat ->
      snd (nth i segs (0, 0)) - fst (nth i segs (0, 0))
      == (pmax - pmin) / inject_Z (Z.of_nat N))) /\
  (pmax <= pmin -> piecewise_segments pmin pmax N = [(pmin, pmax)]).
Proof.
  split.
  - intros HN Hlt segs.
    destruct (segments_shape pmin pmax N Hlt HN) as [Hlen _].
    split; [exact Hlen | exact (segments_links pmin pmax N Hlt HN)].
  - intros Hle. unfold piecewise_segments.
    apply Qle_bool_iff in Hle. rewrite Hle. reflexivity.
Qed.

Lemma nth_seg_costs (a b : option Q) (segs : list (Q * Q)) (s : nat) :
  (s < length segs)%nat ->
  nth s (seg_costs a b segs) 0 = seg_marginal_cost a b (nth s segs (0, 0)).
Proof.
  intros Hs. unfold seg_costs.
  rewrite nth_indep with (d' := seg_marginal_cost a b (0, 0))
    by (rewrite length_map; exact Hs).
  apply map_nth.
Qed.

(** C6 (amended): the representative marginal cost of segment [s] of
    generator [g] is [2 a mid + b] when both [cost_a] and [cost_b] are
    given, [b] when only [cost_b] is given, and [0] when [cost_b] is
    absent, whether or not [cost_a] is given. *)
Theorem seg_cost_cases (gens : list Gen) (nseg : nat) (g : string) (s : nat) :
  (s < length (seg_bounds gens nseg g))%nat ->
  let seg := nth s (seg_bounds gens nseg g) (0, 0) in
  let mid := (fst seg + snd seg) / 2 in
  let mc := nth s (seg_cost gens nseg g) 0 in
  (forall a b, g_cost_a (gen_of gens g) = Some a ->
     g_cost_b (gen_of gens g) = Some b -> mc == 2 * a * mid + b) /\
  (forall b, g_cost_a (gen_of gens g) = None ->
     g_cost_b (gen_of gens g) = Some b -> mc = b) /\
  (g_cost_b (gen_of gens g) = None -> mc = 0).
Proof.
  intros Hs seg mid mc. subst mc. unfold seg_cost.
  rewrite nth_seg_costs by exact Hs. fold seg.
  unfold seg_marginal_cost. subst mid.
  repeat split.
  - intros a b -> ->. field.
  - intros b -> ->. reflexivity.
  - intros ->. destruct (g_cost_a (gen_of gens g)); reflexivity.
Qed.

(** Two consecutive segments of a generator with [cost_a = a >= 0] and
    [cost_b = b]: the later one is not cheaper. *)
Lemma seg_cost_step (gens : list Gen) (nseg : nat) (g : string) (a b : Q) (i : nat) :
  g_cost_a (gen_of gens g) = Some a -> g_cost_b (gen_of gens g) = Some b ->
  0 <= a -> (S i < length (seg_cost gens nseg g))%nat ->
  nth i (seg_cost gens nseg g) 0 <= nth (S i) (seg_cost gens nseg g) 0.
Proof.
  intros Ha Hb Ha0 Hi. unfold seg_cost in *. rewrite Ha, Hb in *.
  unfold seg_costs in Hi. rewrite length_map in Hi.
  rewrite !nth_seg_costs by lia.
  unfold seg_bounds in *.
  set (pmin := pmin_p gens g) in *. set (pmax := pmax_p gens g) in *.
  destruct (Qlt_le_dec pmin pmax) as [Hlt | Hle].
  2: { rewrite (proj2 (piecewise_segments_contract pmin pmax nseg) Hle) in Hi.
       simpl in Hi. lia. }
  destruct nseg as [| N].
  { exfalso. unfold piecewise_segments in Hi. rewrite Qle_bool_false in Hi by exact Hlt.
    simpl in Hi. lia. }
  destruct (segments_shape pmin pmax (S N) Hlt ltac:(lia)) as [Hlen _].
  destruct (segments_links pmin pmax (S N) Hlt ltac:(lia))
    as [_ [_ [Hlink Hwidth]]].
  rewrite Hlen in Hi.
  pose proof (Hlink i Hi) as Hl.
  pose proof (Hwidth i ltac:(lia)) as W1. pose proof (Hwidth (S i) Hi) as W2.
  set (w := (pmax - pmin) / inject_Z (Z.of_nat (S N))) in *.
  assert (Hw : 0 <= w).
  { subst w. apply Qle_shift_div_l.
    - unfold Qlt; simpl; lia.
    - lra. }
  destruct (nth i (piecewise_segments pmin pmax (S N)) (0, 0)) as [lo1 hi1].
  destruct (nth (S i) (piecewise_segments pmin pmax (S N)) (0, 0)) as [lo2 hi2].
  simpl in *. subst lo2. nra.
Qed.

(** C9: when [cost_a = a >= 0] and [cost_b] is given, the segment
    marginal costs of a generator are non-decreasing in segment order. *)
Theorem seg_cost_monotone (gens : list Gen) (nseg : nat) (g : string) (a b : Q) :
  g_cost_a (gen_of gens g) = Some a -> g_cost_b (gen_of gens g) = Some b ->
  0 <= a ->
  forall i j, (i <= j)%nat -> (j < length (seg_cost gens nseg g))%nat ->
  nth i (seg_cost gens nseg g) 0 <= nth j (seg_cost gens nseg g) 0.
Proof.
  intros Ha Hb Ha0 i j Hij. induction Hij as [| j Hij IH]; intros Hj.
  - apply Qle_refl.
  - apply Qle_trans with (nth j (seg_cost gens nseg g) 0).
    + apply IH. lia.
    + apply (seg_cost_step gens nseg g a b j Ha Hb Ha0 Hj).
Qed.

(** ** The builder: where constraints come from *)

Lemma mapM_inr {A B} (f : A -> res B) (l : list A) (ys : list B) :
  mapM f l = inr ys -> forall x, In x l -> exists y, f x = inr y /\ In y ys.
Proof.
  revert ys. induction l as [| a l IH]; intros ys H x Hx; [destruct Hx |].
  simpl in H. destruct (f a) as [e | y] eqn:Hfa; [discriminate |].
  simpl in H. destruct (mapM f l) as [e | ys'] eqn:Hl; [discriminate |].
  simpl in H. injection H as <-.
  destruct Hx as [<- | Hx].
  - exists y. split; [exact Hfa | left; reflexivity].
  - destruct (IH ys' eq_refl x Hx) as (y' & Hy' & Hin).
    exists y'. split; [exact Hy' | right; exact Hin].
Qed.

Lemma mapM_inr_all {A B} (f : A -> res B) (l : list A) (ys : list B) :
  mapM f l = inr ys -> forall y, In y ys -> exists x, In x l /\ f x = inr y.
Proof.
  revert ys. induction l as [| a l IH]; intros ys H y Hy.
  - simpl in H. injection H as <-. destruct Hy.
  - simpl in H. destruct (f a) as [e | y0] eqn:Hfa; [discriminate |].
    simpl in H. destruct (mapM f l) as [e | ys'] eqn:Hl; [discriminate |].
    simpl in H. injection H as <-.
    destruct Hy as [<- | Hy].
    + exists a. split; [left; reflexivity | exact Hfa].
    + destruct (IH ys' eq_refl y Hy) as (x & Hx & Hfx).
      exists x. split; [right; exact Hx | exact Hfx].
Qed.

Lemma mapM_inl {A B} (f : A -> res B) (l : list A) (e : Exc) :
  mapM f l = inl e -> exists x, In x l /\ f x = inl e.
Proof.
  induction l as [| a l IH]; intros H; [discriminate |].
  simpl in H. destruct (f a) as [e' | y] eqn:Hfa.
  - injection H as ->. exists a. split; [left; reflexivity | exact Hfa].
  - simpl in H. destruct (mapM f l) as [e' | ys] eqn:Hl; [| discriminate].
    injection H as ->. destruct (IH eq_refl) as (x & Hx & Hfx).
    exists x. split; [right; exact Hx | exact Hfx].
Qed.

Lemma mkcon_inv (nm : ConName) (l : LinExpr) (s : Sense) (r : LinExpr) y :
  mkcon nm l s r = inr y -> y = (nm, mkCon l s r).
Proof.
  unfold mkcon, raise, ret. destruct (le_terms l), (le_terms r); intros H;
    try discriminate; injection H as <-; reflexivity.
Qed.

Lemma mkcon_err (nm : ConName) (l : LinExpr) (s : Sense) (r : LinExpr) e :
  mkcon nm l s r = inl e -> exc_type e = ValueError.
Proof.
  unfold mkcon, raise, ret. destruct (le_terms l), (le_terms r); intros H;
    try discriminate; injection H as <-; reflexivity.
Qed.

(** A successful build: its parameters, its window indices and its
    constraints, the concatenation of the components. *)
Lemma build_inv (data : Data) (horizon : Z) (nseg : nat) (M : UCModel) :
  build_uc_model data horizon nseg = inr M ->
  build_params data horizon nseg = inr (m_params M) /\
  m_MINUP M = min_up_idx (m_params M) /\
  m_MINDOWN M = min_down_idx (m_params M) /\
  exists css, mapM (fun c => c) (families (m_params M)) = inr css /\
              m_cons M = concat css.
Proof.
  unfold build_uc_model. intros H.
  destruct (build_params data horizon nseg) as [e | P] eqn:HP;
    cbn [bind] in H; [discriminate |].
  destruct (mapM (fun c => c) (families P)) as [e | css] eqn:Hc;
    cbn [bind] in H; [discriminate |].
  injection H as <-. simpl.
  repeat split; try reflexivity. exists css. split; [exact Hc | reflexivity].
Qed.

Lemma build_params_inv (data : Data) (horizon : Z) (nseg : nat) (P : Params) :
  build_params data horizon nseg = inr P ->
  P_horizon P = horizon /\ P_nseg P = nseg /\
  P_T P = zrange 1 (horizon + 1) /\ P_gens P = d_gens data /\
  P_G P = map g_name (d_gens data) /\
  P_B P = sort_Z (default [] (d_buses data)) /\
  P_lines P = default [] (d_lines data) /\
  P_L P = map l_name (default [] (d_lines data)) /\
  P_demand P = d_demand data.
Proof.
  unfold build_params. intros H.
  match type of H with
  | (let* _ := ?m in _) = _ => destruct m as [e | u]; cbn [bind] in H; [discriminate |]
  end. injection H as <-. repeat split.
Qed.

(** Every component's constraint at every index of the component is in a
    successfully built model. *)
Lemma rule_in_model {A} (P : Params) (css : list (list (ConName * Con)))
    (R : A -> res (ConName * Con)) (I : list A) :
  mapM (fun c => c) (families P) = inr css ->
  In (mapM R I) (families P) ->
  forall x, In x I -> exists y, R x = inr y /\ In y (concat css).
Proof.
  intros Hc Hfam x Hx.
  destruct (mapM_inr _ _ _ Hc _ Hfam) as (cs & Hcs & Hin).
  destruct (mapM_inr _ _ _ Hcs x Hx) as (y & Hy & Hyin).
  exists y. split; [exact Hy |]. apply in_concat. exists cs. split; assumption.
Qed.

Ltac in_families :=
  unfold families; cbn [In]; repeat (first [left; reflexivity | right]).

Lemma in_GT (P : Params) (g : string) (t : Z) :
  In g (P_G P) -> In t (P_T P) -> In (g, t) (GT P).
Proof.
  intros Hg Ht. unfold GT. apply in_flat_map. exists g. split; [exact Hg |].
  apply in_map_iff. exists t. split; [reflexivity | exact Ht].
Qed.

Lemma in_LT (P : Params) (l : string) (t : Z) :
  In l (P_L P) -> In t (P_T P) -> In (l, t) (LT P).
Proof.
  intros Hl Ht. unfold LT. apply in_flat_map. exists l. split; [exact Hl |].
  apply in_map_iff. exists t. split; [reflexivity | exact Ht].
Qed.

Lemma in_BT (P : Params) (b t : Z) :
  In b (P_B P) -> In t (P_T P) -> In (b, t) (BT P).
Proof.
  intros Hb Ht. unfold BT. apply in_flat_map. exists b. split; [exact Hb |].
  apply in_map_iff. exists t. split; [reflexivity | exact Ht].
Qed.

(** C2: the bound the model actually imposes. At every feasible point of a
    built model, the spinning reserve of generator [g] in period [t] is at
    most [pmax(g) - p(g,t)]; the constraint [r_sp_bound] carries no factor
    [u(g,t)], unlike the reserve comment and [spin_avail]. *)
Theorem r_sp_bound_holds (data : Data) (horizon : Z) (nseg : nat) (M : UCModel)
    (σ : Var -> Q) (g : string) (t : Z) :
  build_uc_model data horizon nseg = inr M -> feasible σ M ->
  In g (P_G (m_params M)) -> In t (P_T (m_params M)) ->
  σ (Vrsp g t) <= pmax_p (d_gens data) g - σ (Vp g t).
Proof.
  intros HM [_ Hsat] Hg Ht.
  destruct (build_inv _ _ _ _ HM) as (HP & _ & _ & css & Hc & Hcons).
  destruct (build_params_inv _ _ _ _ HP) as (_ & _ & _ & Hgens & _).
  destruct (rule_in_model _ css (r_sp_bound_rule (m_params M)) (GT (m_params M))
              Hc ltac:(in_families) (g, t) (in_GT _ _ _ Hg Ht)) as (y & Hy & Hin).
  unfold r_sp_bound_rule in Hy. apply mkcon_inv in Hy. subst y.
  rewrite <- Hcons in Hin. specialize (Hsat _ Hin).
  unfold sat, eval in Hsat. simpl in Hsat.
  unfold pmax_ in Hsat. rewrite Hgens in Hsat. lra.
Qed.

(** The only exceptions a build raises: [ValueError] (the bus-domain check
    and constraints with no variable) and [KeyError] (an angle of a bus
    outside the bus list). *)
Lemma ldiv_pos (e : LinExpr) (x : Q) : Qgtb x 0 = true -> ldiv e x = inr (lscale (/ x) e).
Proof.
  unfold Qgtb, ldiv. intros H. destruct (Qeq_bool x 0) eqn:E; [| reflexivity].
  apply Qeq_bool_iff in E. rewrite E in H. discriminate.
Qed.

Lemma theta_at_err (P : Params) (b t : Z) e :
  theta_at P b t = inl e -> exc_type e = KeyError.
Proof.
  unfold theta_at. destruct (existsb _ _); intros H; [discriminate |].
  injection H as <-. reflexivity.
Qed.

Lemma dc_flow_err (P : Params) (x : string * Z) e :
  dc_flow P x = inl e -> exc_type e = ValueError \/ exc_type e = KeyError.
Proof.
  destruct x as [l t]. unfold dc_flow.
  destruct (Qgtb (l_reactance (line_ P l)) 0) eqn:Hx.
  - destruct (theta_at P (l_from_bus (line_ P l)) t) as [e1 | th1] eqn:H1;
      cbn [bind]; [intros H; injection H as <-; right; exact (theta_at_err _ _ _ _ H1) |].
    destruct (theta_at P (l_to_bus (line_ P l)) t) as [e2 | th2] eqn:H2;
      cbn [bind]; [intros H; injection H as <-; right; exact (theta_at_err _ _ _ _ H2) |].
    rewrite ldiv_pos by exact Hx. cbn [bind]. intros H. left. exact (mkcon_err _ _ _ _ _ H).
  - intros H. left. exact (mkcon_err _ _ _ _ _ H).
Qed.

Ltac rule_err :=
  match goal with
  | H : mapM ?R ?Idx = inl ?e |- _ =>
      apply mapM_inl in H; destruct H as (x & _ & H);
      repeat match type of x with (_ * _)%type => destruct x as [x ?] end;
      cbv beta iota zeta delta [seg_sum_rule seg_bounds_rule gen_lb_rule gen_ub_rule
        seg_commit_rule ramp_up_rule ramp_down_rule start_link_rule shut_link_rule
        min_up_rule min_down_rule nodal_balance line_pos_rule line_neg_rule
        spin_avail_rule spin_req_rule ns_req_rule r_sp_bound_rule r_ns_bound_rule
        ref_rule] in H;
      left; exact (mkcon_err _ _ _ _ _ H)
  end.

Lemma build_errors (data : Data) (horizon : Z) (nseg : nat) (e : Exc) :
  build_uc_model data horizon nseg = inl e ->
  exc_type e = ValueError \/ exc_type e = KeyError.
Proof.
  unfold build_uc_model.
  destruct (build_params data horizon nseg) as [e0 | P] eqn:HP; cbn [bind].
  - intros H. injection H as <-. left.
    unfold build_params in HP.
    match type of HP with
    | (let* _ := ?m in _) = _ => destruct m as [e1 | u] eqn:Hm; cbn [bind] in HP;
                                 [injection HP as <- | discriminate]
    end.
    apply mapM_inl in Hm. destruct Hm as (g & _ & Hg).
    unfold check_gen_bus in Hg. destruct (existsb _ _); [discriminate |].
    injection Hg as <-. reflexivity.
  - destruct (mapM (fun c => c) (families P)) as [e1 | css] eqn:Hc; cbn [bind];
      [| discriminate].
    intros H. injection H as <-.
    apply mapM_inl in Hc. destruct Hc as (fam & Hfam & Hfe).
    unfold families in Hfam. cbn [In] in Hfam.
    repeat destruct Hfam as [<- | Hfam]; try contradiction; try rule_err.
    + apply mapM_inl in Hfe. destruct Hfe as (x & _ & Hx). exact (dc_flow_err _ _ _ Hx).
    + unfold ref_cons in Hfe. destruct (P_B P) as [| rb rest]; [discriminate |].
      rule_err.
Qed.

(** C8: a build never raises a division error, and for every line [l]
    and period [t] the model holds the flow constraint
    [flow = (theta(from) - theta(to)) / X] when the reactance [X] is
    positive and [flow = 0] otherwise. *)
Theorem dc_flow_guarded (data : Data) (horizon : Z) (nseg : nat) :
  (forall e, build_uc_model data horizon nseg = inl e ->
     exc_type e <> ZeroDivisionError) /\
  (forall M l t, build_uc_model data horizon nseg = inr M ->
     In l (P_L (m_params M)) -> In t (P_T (m_params M)) ->
     let ln := line_of (default [] (d_lines data)) l in
     let x := l_reactance ln in
     exists c, In (CDcFlow l t, c) (m_cons M) /\
       forall σ, sat σ c <->
         (if Qgtb x 0
          then σ (Vflow l t) == (σ (Vtheta (l_from_bus ln) t) - σ (Vtheta (l_to_bus ln) t)) / x
          else σ (Vflow l t) == 0)).
Proof.
  split.
  - intros e He. destruct (build_errors _ _ _ _ He) as [-> | ->]; discriminate.
  - intros M l t HM Hl Ht ln x.
    destruct (build_inv _ _ _ _ HM) as (HP & _ & _ & css & Hc & Hcons).
    destruct (build_params_inv _ _ _ _ HP) as (_ & _ & _ & _ & _ & _ & Hlines & _).
    destruct (rule_in_model _ css (dc_flow (m_params M)) (LT (m_params M))
                Hc ltac:(in_families) (l, t) (in_LT _ _ _ Hl Ht)) as (y & Hy & Hin).
    rewrite <- Hcons in Hin.
    unfold dc_flow, line_ in Hy. rewrite Hlines in Hy. fold ln x in Hy.
    destruct (Qgtb x 0) eqn:Hx.
    + destruct (theta_at (m_params M) (l_from_bus ln) t) as [e1 | th1] eqn:H1;
        cbn [bind] in Hy; [discriminate |].
      destruct (theta_at (m_params M) (l_to_bus ln) t) as [e2 | th2] eqn:H2;
        cbn [bind] in Hy; [discriminate |].
      unfold theta_at in H1, H2.
      destruct (existsb _ _) in H1; [| discriminate]. injection H1 as <-.
      destruct (existsb _ _) in H2; [| discriminate]. injection H2 as <-.
      rewrite ldiv_pos in Hy by exact Hx. cbn [bind] in Hy.
      apply mkcon_inv in Hy. subst y. eexists. split; [exact Hin |].
      intros σ. unfold sat, eval. simpl.
      assert (Hx0 : ~ x == 0).
      { unfold Qgtb in Hx. intros E. rewrite E in Hx. discriminate. }
      set (fl := σ (Vflow l t)). set (tf := σ (Vtheta (l_from_bus ln) t)).
      set (tt := σ (Vtheta (l_to_bus ln) t)).
      assert (Eq : 1 * fl + (-1 * (/ x * 1) * tf + (-1 * (/ x * (-1 * 1)) * tt
                     + (0 + -1 * (/ x * (0 + -1 * 0))))) == fl - (tf - tt) / x)
        by (unfold Qdiv; ring).
      rewrite Eq.
      set (D := (tf - tt) / x). split; intros E; lra.
    + apply mkcon_inv in Hy. subst y. eexists. split; [exact Hin |].
      intros σ. unfold sat, eval. simpl. split; intros E; lra.
Qed.

(** ** Minimum up and down windows *)

Lemma zrange_In (a b x : Z) : In x (zrange a b) <-> (a <= x < b)%Z.
Proof.
  unfold zrange. rewrite in_map_iff. split.
  - intros (i & <- & Hi). apply in_seq in Hi. lia.
  - intros H. exists (Z.to_nat (x - a)). split; [lia |].
    apply in_seq. lia.
Qed.

Lemma min_up_idx_spec (P : Params) (g : string) (t : Z) :
  In (g, t) (min_up_idx P) <->
  In g (P_G P) /\ (1 < min_up_p (P_gens P) g)%Z /\ (1 <= t)%Z /\
  (t + min_up_p (P_gens P) g - 1 <= P_horizon P)%Z.
Proof.
  unfold min_up_idx. rewrite in_flat_map. split.
  - intros (g' & Hg' & Hin).
    destruct (1 <? min_up_p (P_gens P) g')%Z eqn:Hmu; [| destruct Hin].
    apply in_map_iff in Hin. destruct Hin as (t' & Heq & Ht). injection Heq as <- <-.
    apply zrange_In in Ht. apply Z.ltb_lt in Hmu. repeat split; auto; lia.
  - intros (Hg & Hmu & H1 & H2). exists g. split; [exact Hg |].
    apply Z.ltb_lt in Hmu. rewrite Hmu. apply in_map_iff. exists t.
    split; [reflexivity |]. apply zrange_In. lia.
Qed.

Lemma min_down_idx_spec (P : Params) (g : string) (t : Z) :
  In (g, t) (min_down_idx P) <->
  In g (P_G P) /\ (1 < min_down_p (P_gens P) g)%Z /\ (1 <= t)%Z /\
  (t + min_down_p (P_gens P) g - 1 <= P_horizon P)%Z.
Proof.
  unfold min_down_idx. rewrite in_flat_map. split.
  - intros (g' & Hg' & Hin).
    destruct (1 <? min_down_p (P_gens P) g')%Z eqn:Hmd; [| destruct Hin].
    apply in_map_iff in Hin. destruct Hin as (t' & Heq & Ht). injection Heq as <- <-.
    apply zrange_In in Ht. apply Z.ltb_lt in Hmd. repeat split; auto; lia.
  - intros (Hg & Hmd & H1 & H2). exists g. split; [exact Hg |].
    apply Z.ltb_lt in Hmd. rewrite Hmd. apply in_map_iff. exists t.
    split; [reflexivity |]. apply zrange_In. lia.
Qed.

Lemma dc_flow_name (P : Params) (x : string * Z) y :
  dc_flow P x = inr y -> fst y = CDcFlow (fst x) (snd x).
Proof.
  destruct x as [l t]. unfold dc_flow.
  destruct (Qgtb _ 0).
  - destruct (theta_at P _ t) as [e1 | th1]; cbn [bind]; [discriminate |].
    destruct (theta_at P _ t) as [e2 | th2]; cbn [bind]; [discriminate |].
    destruct (ldiv _ _) as [e3 | q]; cbn [bind]; [discriminate |].
    intros H. apply mkcon_inv in H. subst y. reflexivity.
  - intros H. apply mkcon_inv in H. subst y. reflexivity.
Qed.

Ltac rule_name :=
  match goal with
  | H : mapM ?R ?Idx = inr ?cs, Hy : In ?y ?cs |- _ =>
      let x := fresh "x" in let Hx := fresh "Hx" in let Hr := fresh "Hr" in
      destruct (mapM_inr_all _ _ _ H _ Hy) as (x & Hx & Hr);
      repeat match type of x with (_ * _)%type => destruct x as [x ?] end;
      cbv beta iota zeta delta [seg_sum_rule seg_bounds_rule gen_lb_rule gen_ub_rule
        seg_commit_rule ramp_up_rule ramp_down_rule start_link_rule shut_link_rule
        min_up_rule min_down_rule nodal_balance line_pos_rule line_neg_rule
        spin_avail_rule spin_req_rule ns_req_rule r_sp_bound_rule r_ns_bound_rule
        ref_rule] in Hr;
      apply mkcon_inv in Hr; subst y; unfold from_min_windows; simpl;
      first [exact I | exact Hx]
  end.

Lemma families_min_windows (P : Params) (css : list (list (ConName * Con))) :
  mapM (fun c => c) (families P) = inr css ->
  forall y, In y (concat css) -> from_min_windows P y.
Proof.
  intros Hc y Hy. apply in_concat in Hy. destruct Hy as (cs & Hcs & Hy).
  destruct (mapM_inr_all _ _ _ Hc _ Hcs) as (fam & Hfam & Hfe).
  unfold families in Hfam. cbn [In] in Hfam.
  cbv beta in Hfe.
  repeat destruct Hfam as [<- | Hfam]; try contradiction; try rule_name.
  - destruct (mapM_inr_all _ _ _ Hfe _ Hy) as (x & _ & Hr).
    apply dc_flow_name in Hr. unfold from_min_windows. rewrite Hr. exact I.
  - unfold ref_cons in Hfe. destruct (P_B P) as [| rb rest].
    + injection Hfe as <-. destruct Hy.
    + rule_name.
Qed.

(** C7: in a built model there is a minimum-up constraint for generator
    [g] and start period [t] exactly when [min_up(g) > 1], [1 <= t] and
    [t + min_up(g) - 1 <= H]; likewise for minimum-down.  A minimum of 1
    yields no window constraint. *)
Theorem min_windows_exact (data : Data) (horizon : Z) (nseg : nat) (M : UCModel) :
  build_uc_model data horizon nseg = inr M ->
  (forall g t,
     (exists c, In (CMinUp g t, c) (m_cons M)) <->
     In g (map g_name (d_gens data)) /\ (1 < min_up_p (d_gens data) g)%Z /\
     (1 <= t)%Z /\ (t + min_up_p (d_gens data) g - 1 <= horizon)%Z) /\
  (forall g t,
     (exists c, In (CMinDown g t, c) (m_cons M)) <->
     In g (map g_name (d_gens data)) /\ (1 < min_down_p (d_gens data) g)%Z /\
     (1 <= t)%Z /\ (t + min_down_p (d_gens data) g - 1 <= horizon)%Z).
Proof.
  intros HM.
  destruct (build_inv _ _ _ _ HM) as (HP & _ & _ & css & Hc & Hcons).
  destruct (build_params_inv _ _ _ _ HP) as (Hh & _ & _ & Hgens & HG & _).
  split; intros g t; split.
  - intros (c & Hin). rewrite Hcons in Hin.
    pose proof (families_min_windows _ _ Hc _ Hin) as Hw. simpl in Hw.
    apply min_up_idx_spec in Hw. rewrite Hh, Hgens, HG in Hw. exact Hw.
  - intros Hcond. rewrite <- HG, <- Hgens, <- Hh in Hcond.
    apply min_up_idx_spec in Hcond.
    destruct (rule_in_model _ css (min_up_rule (m_params M)) _ Hc
                ltac:(in_families) _ Hcond) as (y & Hy & Hin).
    unfold min_up_rule in Hy. apply mkcon_inv in Hy. subst y.
    eexists. rewrite Hcons. exact Hin.
  - intros (c & Hin). rewrite Hcons in Hin.
    pose proof (families_min_windows _ _ Hc _ Hin) as Hw. simpl in Hw.
    apply min_down_idx_spec in Hw. rewrite Hh, Hgens, HG in Hw. exact Hw.
  - intros Hcond. rewrite <- HG, <- Hgens, <- Hh in Hcond.
    apply min_down_idx_spec in Hcond.
    destruct (rule_in_model _ css (min_down_rule (m_params M)) _ Hc
                ltac:(in_families) _ Hcond) as (y & Hy & Hin).
    unfold min_down_rule in Hy. apply mkcon_inv in Hy. subst y.
    eexists. rewrite Hcons. exact Hin.
Qed.

(** ** Nodal balance *)

Lemma lsum_const (l : list LinExpr) (acc : LinExpr) :
  (forall e, In e l -> le_const e == 0) ->
  le_const (fold_left ladd l acc) == le_const acc.
Proof.
  revert acc. induction l as [| e l IH]; intros acc Hl; simpl; [reflexivity |].
  rewrite IH by (intros e' He'; apply Hl; right; exact He').
  simpl. rewrite (Hl e (or_introl eq_refl)). ring.
Qed.

Lemma lsum_vars_const {A} (f : A -> Var) (l : list A) :
  le_const (lsum (map (fun a => lvar (f a)) l)) == 0.
Proof.
  unfold lsum. rewrite lsum_const; [reflexivity |].
  intros e He. apply in_map_iff in He. destruct He as (a & <- & _). reflexivity.
Qed.

Lemma mkcon_is_ok (nm1 nm2 : ConName) (l1 l2 r1 r2 : LinExpr) (s1 s2 : Sense) :
  le_terms l1 = le_terms l2 -> le_terms r1 = le_terms r2 ->
  is_ok (mkcon nm1 l1 s1 r1) = is_ok (mkcon nm2 l2 s2 r2).
Proof.
  unfold mkcon. intros -> ->. destruct (le_terms l2), (le_terms r2); reflexivity.
Qed.

(** C10: whether the balance constraint of bus [b] and period [t] can be
    built does not depend on the demand and renewable series; when built,
    its constant is [-(demand(t,b) - renewable(t,b))] against a zero
    right-hand side, where an entry missing from a series reads as [0]. *)
Theorem nodal_balance_missing_zero (P : Params) (b t : Z) :
  (forall dem ren,
     is_ok (nodal_balance (set_forecasts P dem ren) (b, t))
     = is_ok (nodal_balance P (b, t))) /\
  (forall y, nodal_balance P (b, t) = inr y ->
     fst y = CBalance b t /\ c_sense (snd y) = SEq /\ c_rhs (snd y) = lcst 0 /\
     le_const (c_lhs (snd y))
     == - (get2 (P_demand P) t b - get2 (P_ren P) t b)) /\
  (forall m : gmap Z (gmap Z Q),
     (m !! t ≫= fun mb => mb !! b) = None -> get2 m t b = 0) /\
  (forall (m : gmap Z (gmap Z Q)) v,
     (m !! t ≫= fun mb => mb !! b) = Some v -> get2 m t b = v).
Proof.
  split; [| split; [| split]].
  - intros dem ren. unfold nodal_balance. apply mkcon_is_ok; reflexivity.
  - intros y Hy. unfold nodal_balance in Hy. apply mkcon_inv in Hy. subst y.
    simpl. repeat split.
    rewrite !lsum_vars_const. unfold balance_rhs. ring.
  - intros m. unfold get2. destruct (m !! t) as [mb |]; simpl.
    + intros ->. reflexivity.
    + rewrite lookup_empty. reflexivity.
  - intros m v. unfold get2. destruct (m !! t) as [mb |]; simpl.
    + intros ->. reflexivity.
    + discriminate.
Qed.

(** ** Reserve bounds on a concrete model *)

Lemma satb_sat (σ : Var -> Q) (c : Con) : satb σ c = true -> sat σ c.
Proof.
  unfold satb, sat. destruct (c_sense c); intros H.
  - apply Qle_bool_iff. exact H.
  - apply Qle_bool_iff. exact H.
  - apply Qeq_bool_iff. exact H.
Qed.

Lemma build_c2 : build_uc_model data_c2 1 1 = inr model_c2.
Proof. vm_compute. reflexivity. Qed.

Lemma sigma_c2_feasible : feasible sigma_c2 model_c2.
Proof.
  split.
  - intros x. unfold sigma_c2. destruct (decide (x = Vrsp "G1" 1)) as [-> | _].
    + simpl. discriminate.
    + destruct x; simpl; first [left; reflexivity | discriminate | exact I].
  - intros nc Hin. apply satb_sat.
    assert (Hall : forallb (fun nc => satb sigma_c2 (snd nc))
        (m_cons model_c2) = true) by (vm_compute; reflexivity).
    rewrite forallb_forall in Hall. apply (Hall nc). exact Hin.
Qed.

(** C2, divergence of [r_sp_bound] from [pmax * u - p]: in the
    one-generator model, the point with the unit off
    ([u = 0], [p = 0]) and [r_sp = 10] satisfies every constraint, but
    [r_sp <= pmax * u - p = 0] fails. *)
Lemma r_sp_committed_counterexample :
  build_uc_model data_c2 1 1 = inr model_c2 /\ feasible sigma_c2 model_c2 /\
  sigma_c2 (Vu "G1" 1) = 0 /\
  ~ (sigma_c2 (Vrsp "G1" 1)
     <= pmax_p (d_gens data_c2) "G1" * sigma_c2 (Vu "G1" 1) - sigma_c2 (Vp "G1" 1)).
Proof.
  split; [exact build_c2 |]. split; [exact sigma_c2_feasible |].
  split; [reflexivity |]. vm_compute. intros H. apply H. reflexivity.
Qed.

Lemma r_sp_bound_holds_witness :
  build_uc_model data_c2 1 1 = inr model_c2 /\ feasible sigma_c2 model_c2 /\
  In "G1" (P_G (m_params model_c2)) /\ In 1%Z (P_T (m_params model_c2)) /\
  sigma_c2 (Vrsp "G1" 1) <= pmax_p (d_gens data_c2) "G1" - sigma_c2 (Vp "G1" 1).
Proof.
  assert (H3 : In "G1" (P_G (m_params model_c2))) by (vm_compute; left; reflexivity).
  assert (H4 : In 1%Z (P_T (m_params model_c2))) by (vm_compute; left; reflexivity).
  split; [exact build_c2 |]. split; [exact sigma_c2_feasible |].
  split; [exact H3 |]. split; [exact H4 |].
  exact (r_sp_bound_holds data_c2 1 1 model_c2 sigma_c2 "G1" 1 build_c2
           sigma_c2_feasible H3 H4).
Defined.

(** ** Input checks *)

Lemma insert_Z_In (x y : Z) (l : list Z) : In x (insert_Z y l) <-> x = y \/ In x l.
Proof.
  induction l as [| a l IH]; simpl.
  - split; intros [H | H]; auto; contradiction.
  - destruct (y <=? a)%Z; simpl.
    + split; intros [H | H]; auto.
    + rewrite IH. split; intros [H | [H | H]]; auto.
Qed.

Lemma sort_Z_In (x : Z) (l : list Z) : In x (sort_Z l) <-> In x l.
Proof.
  induction l as [| a l IH]; simpl; [tauto |].
  rewrite insert_Z_In, IH. split; intros [H | H]; auto.
Qed.

Lemma mapM_is_ok {A B} (f : A -> res B) (l : list A) :
  is_ok (mapM f l) = true <-> forall x, In x l -> is_ok (f x) = true.
Proof.
  induction l as [| a l IH]; simpl.
  - split; [intros _ x [] | reflexivity].
  - destruct (f a) as [e | y] eqn:Hfa; simpl.
    + split; [discriminate |]. intros H. specialize (H a (or_introl eq_refl)).
      rewrite Hfa in H. discriminate.
    + destruct (mapM f l) as [e | ys] eqn:Hl; simpl in *.
      * split; [discriminate |]. intros H. apply IH. intros x Hx. apply H. right. exact Hx.
      * split; [| reflexivity]. intros _ x [<- | Hx].
        -- rewrite Hfa. reflexivity.
        -- apply IH; [reflexivity | exact Hx].
Qed.

(** C3 refuted: a snapshot whose generator has [pmax < pmin], a negative
    ramp rate, a negative cost coefficient and [min_up = 0] is built
    without any error. *)
Lemma build_accepts_invalid_generator :
  (g_pmax gen_c3 = Some 5 /\ g_pmin gen_c3 = Some 10) /\
  g_ramp_up gen_c3 = Some (-1) /\ g_cost_b gen_c3 = Some (-3) /\
  g_min_up gen_c3 = Some 0%Z /\
  is_ok (build_uc_model data_c3 2 1) = true.
Proof. repeat split; vm_compute; reflexivity. Qed.

(** C3 (amended): before any variable is created, the build fails
    exactly when the bus of some generator is not in the bus list, and
    then with a [ValueError]; [pmin], [pmax], ramp rates, cost
    coefficients, minimum up and down times and line endpoints are not
    checked at that stage. *)
Theorem build_params_checks_only_gen_bus (data : Data) (horizon : Z) (nseg : nat) :
  (is_ok (build_params data horizon nseg) = true <->
   forall n, In n (map g_name (d_gens data)) ->
   In (g_bus (gen_of (d_gens data) n)) (default [] (d_buses data))) /\
  (forall e, build_params data horizon nseg = inl e -> exc_type e = ValueError).
Proof.
  split.
  - unfold build_params.
    match goal with
    | |- is_ok (let* _ := ?m in _) = true <-> _ =>
        transitivity (is_ok m = true); [destruct m; simpl; split; auto |]
    end.
    rewrite mapM_is_ok. simpl. split; intros H n Hn; specialize (H n Hn).
    + unfold check_gen_bus in H. simpl in H.
      destruct (existsb _ _) eqn:E; [| discriminate].
      apply existsb_exists in E. destruct E as (b & Hb & Heq).
      apply Z.eqb_eq in Heq. rewrite Heq. apply sort_Z_In. exact Hb.
    + unfold check_gen_bus. simpl.
      replace (existsb _ _) with true; [reflexivity |]. symmetry.
      apply existsb_exists. exists (g_bus (gen_of (d_gens data) n)).
      split; [apply sort_Z_In; exact H | apply Z.eqb_refl].
  - intros e. unfold build_params.
    match goal with
    | |- (let* _ := ?m in _) = _ -> _ =>
        destruct m as [e1 | u] eqn:Hm; cbn [bind]; [intros H; injection H as <- | discriminate]
    end.
    apply mapM_inl in Hm. destruct Hm as (g & _ & Hg).
    unfold check_gen_bus in Hg. destruct (existsb _ _); [discriminate |].
    injection Hg as <-. reflexivity.
Qed.

(** ** Segment costs on a concrete generator *)

(** C6 refuted: with [cost_a = 1] and no [cost_b], the cost of the
    segment [(0, 10)] is [0], not [2 * 1 * 5 (+ 0)]. *)
Lemma seg_cost_a_without_b :
  let seg := nth 0 (seg_bounds [gen_c6] 1 "A") (0, 0) in
  let mc := nth 0 (seg_cost [gen_c6] 1 "A") 0 in
  g_cost_a gen_c6 = Some 1 /\ g_cost_b gen_c6 = None /\
  fst seg == 0 /\ snd seg == 10 /\
  mc == 0 /\ ~ (mc == 2 * 1 * ((fst seg + snd seg) / 2) + 0).
Proof.
  repeat split; try reflexivity. vm_compute. discriminate.
Qed.

(** ** The solve driver *)

(** C1 refuted: [cbc] solves the MILP, the LP re-solve fails on [cbc] and
    on [glpk], and [solve_uc] raises instead of returning. *)
Lemma lp_failure_counterexample :
  try_candidates backend_c1 None (candidates None None) None (attach_dual st_c2)
    = inr ("cbc", attach_dual st_c2) /\
  (exists e1, backend_c1 "cbc" None (fix_binaries (attach_dual st_c2)) = inl e1) /\
  (exists e2, backend_c1 "glpk" None (fix_binaries (attach_dual st_c2)) = inl e2) /\
  solve_uc backend_c1 st_c2 None None None
    = inl (mkExc RuntimeError
             "LP re-solve failed on both cbc and glpk: cbc: no LP solution, glpk: no LP solution") /\
  (forall st2 lmp, solve_uc backend_c1 st_c2 None None None <> inr (st2, lmp)).
Proof.
  split; [reflexivity |]. split; [eexists; vm_compute; reflexivity |].
  split; [eexists; reflexivity |]. split; [vm_compute; reflexivity |].
  intros st2 lmp. vm_compute. discriminate.
Qed.

(** C1 (amended): when the MILP solve succeeds with backend [used] and the
    LP re-solve fails with [used] and, if [used] is not [glpk], with
    [glpk] too, [solve_uc] raises: the LP error itself when [used] is
    [glpk], otherwise a [RuntimeError] naming both backends and both
    causes. *)
Theorem solve_uc_lp_failure_raises (backend : Backend) (st : SolveState)
    (cands : option (list string)) (sn : option string) (tl : option Q)
    (used : string) (st1 : SolveState) (e1 e2 : Exc) :
  try_candidates backend tl (candidates cands sn) None (attach_dual st) = inr (used, st1) ->
  backend used None (fix_binaries st1) = inl e1 ->
  (used = "glpk" \/ backend "glpk" None (fix_binaries st1) = inl e2) ->
  solve_uc backend st cands sn tl =
  inl (if String.eqb used "glpk" then e1
       else mkExc RuntimeError ("LP re-solve failed on both " ++ used ++ " and glpk: "
                                ++ exc_msg e1 ++ ", " ++ exc_msg e2)).
Proof.
  intros Hmilp Hlp Halt. unfold solve_uc. rewrite Hmilp. cbn [bind fst snd].
  unfold lp_resolve. rewrite Hlp.
  destruct (String.eqb used "glpk") eqn:E; simpl; [reflexivity |].
  destruct Halt as [-> | Halt]; [discriminate |]. rewrite Halt. reflexivity.
Qed.

Lemma solve_uc_lp_failure_raises_witness :
  try_candidates backend_c1 None (candidates None None) None (attach_dual st_c2)
    = inr ("cbc", attach_dual st_c2) /\
  backend_c1 "cbc" None (fix_binaries (attach_dual st_c2))
    = inl (mkExc ApplicationError "cbc: no LP solution") /\
  ("cbc" = "glpk" \/ backend_c1 "glpk" None (fix_binaries (attach_dual st_c2))
    = inl (mkExc ApplicationError "glpk: no LP solution")) /\
  solve_uc backend_c1 st_c2 None None None =
  inl (mkExc RuntimeError
         "LP re-solve failed on both cbc and glpk: cbc: no LP solution, glpk: no LP solution").
Proof.
  assert (H1 : try_candidates backend_c1 None (candidates None None) None (attach_dual st_c2)
               = inr ("cbc", attach_dual st_c2)) by reflexivity.
  assert (H2 : backend_c1 "cbc" None (fix_binaries (attach_dual st_c2))
               = inl (mkExc ApplicationError "cbc: no LP solution")) by (vm_compute; reflexivity).
  assert (H3 : "cbc" = "glpk" \/ backend_c1 "glpk" None (fix_binaries (attach_dual st_c2))
               = inl (mkExc ApplicationError "glpk: no LP solution")) by (right; reflexivity).
  split; [exact H1 |]. split; [exact H2 |]. split; [exact H3 |].
  exact (solve_uc_lp_failure_raises backend_c1 st_c2 None None None "cbc"
           (attach_dual st_c2) _ _ H1 H2 H3).
Defined.

(** C4 refuted: when both default backends fail, the error reports only
    the last failure and does not name [cbc]. *)
Lemma all_fail_counterexample :
  backend_c4 "cbc" None (attach_dual st_c2) = inl (mkExc ApplicationError "executable not found") /\
  backend_c4 "glpk" None (attach_dual st_c2) = inl (mkExc ApplicationError "executable not found") /\
  solve_uc backend_c4 st_c2 None None None
    = inl (mkExc RuntimeError "No solver succeeded. Last error: executable not found") /\
  contains "cbc" "No solver succeeded. Last error: executable not found" = false.
Proof. repeat split; vm_compute; reflexivity. Qed.

Lemma try_candidates_all_fail (backend : Backend) (tl : option Q) (st : SolveState)
    (pre : list string) (n : string) (e : Exc) (last_exc : option Exc) :
  (forall n', In n' pre -> exists e', backend n' tl st = inl e') ->
  backend n tl st = inl e ->
  try_candidates backend tl ((pre ++ [n])%list) last_exc st
  = inl (mkExc RuntimeError ("No solver succeeded. Last error: " ++ exc_msg e)).
Proof.
  revert last_exc. induction pre as [| a pre IH]; intros last_exc Hpre Hn; simpl.
  - rewrite Hn. reflexivity.
  - destruct (Hpre a (or_introl eq_refl)) as (ea & Ha). rewrite Ha.
    apply IH; [intros n' Hn'; apply Hpre; right; exact Hn' | exact Hn].
Qed.

(** C4 (amended): when every candidate backend fails the MILP solve,
    [solve_uc] raises a [RuntimeError] whose message carries only the
    last candidate's failure. *)
Theorem solve_uc_all_fail_reports_last (backend : Backend) (st : SolveState)
    (cands : option (list string)) (sn : option string) (tl : option Q)
    (pre : list string) (n : string) (e : Exc) :
  candidates cands sn = (pre ++ [n])%list ->
  (forall n', In n' pre -> exists e', backend n' tl (attach_dual st) = inl e') ->
  backend n tl (attach_dual st) = inl e ->
  solve_uc backend st cands sn tl
  = inl (mkExc RuntimeError ("No solver succeeded. Last error: " ++ exc_msg e)).
Proof.
  intros Hc Hpre Hn. unfold solve_uc. rewrite Hc.
  rewrite (try_candidates_all_fail backend tl (attach_dual st) pre n e None Hpre Hn).
  reflexivity.
Qed.

Lemma solve_uc_all_fail_reports_last_witness :
  candidates None None = (["cbc"] ++ ["glpk"])%list /\
  solve_uc backend_c4 st_c2 None None None
  = inl (mkExc RuntimeError "No solver succeeded. Last error: executable not found").
Proof.
  split; [reflexivity |].
  apply (solve_uc_all_fail_reports_last backend_c4 st_c2 None None None ["cbc"] "glpk"
           (mkExc ApplicationError "executable not found")).
  - reflexivity.
  - intros n' _. eexists. reflexivity.
  - reflexivity.
Defined.

(** ** Witnesses *)

Lemma piecewise_segments_contract_witness :
  (1 <= 3)%nat /\ 0 < 12 /\ length (piecewise_segments 0 12 3) = 3%nat /\
  5 <= 5 /\ piecewise_segments 5 5 3 = [(5, 5)].
Proof.
  assert (Ha : (1 <= 3)%nat) by lia.
  assert (Hb : 0 < 12) by (unfold Qlt; simpl; lia).
  assert (Hc : 5 <= 5) by (unfold Qle; simpl; lia).
  split; [exact Ha |]. split; [exact Hb |].
  split; [exact (proj1 (proj1 (piecewise_segments_contract 0 12 3) Ha Hb)) |].
  split; [exact Hc |]. exact (proj2 (piecewise_segments_contract 5 5 3) Hc).
Defined.

Lemma seg_cost_cases_witness :
  (1 < length (seg_bounds [gen_c9] 3 "G1"))%nat /\
  nth 1 (seg_cost [gen_c9] 3 "G1") 0 == 2 * (1 # 10) * 6 + 20.
Proof.
  assert (Hs : (1 < length (seg_bounds [gen_c9] 3 "G1"))%nat) by (vm_compute; lia).
  split; [exact Hs |].
  destruct (seg_cost_cases [gen_c9] 3 "G1" 1 Hs) as [H _].
  eapply Qeq_trans; [exact (H (1 # 10) 20 eq_refl eq_refl) |].
  vm_compute. reflexivity.
Defined.

Lemma seg_cost_monotone_witness :
  (0 <= 2)%nat /\ (2 < length (seg_cost [gen_c9] 3 "G1"))%nat /\
  nth 0 (seg_cost [gen_c9] 3 "G1") 0 <= nth 2 (seg_cost [gen_c9] 3 "G1") 0.
Proof.
  assert (Hij : (0 <= 2)%nat) by lia.
  assert (Hj : (2 < length (seg_cost [gen_c9] 3 "G1"))%nat) by (vm_compute; lia).
  assert (Ha0 : 0 <= 1 # 10) by (unfold Qle; simpl; lia).
  split; [exact Hij |]. split; [exact Hj |].
  exact (seg_cost_monotone [gen_c9] 3 "G1" (1 # 10) 20 eq_refl eq_refl Ha0 0 2 Hij Hj).
Defined.

Lemma build_params_checks_only_gen_bus_witness :
  is_ok (build_params data_c3 1 1) = true /\
  exists e, build_params data_c3_bad 1 1 = inl e /\ exc_type e = ValueError.
Proof.
  split.
  - apply (proj1 (build_params_checks_only_gen_bus data_c3 1 1)).
    intros n Hn. simpl in Hn. destruct Hn as [<- | []]. in_list.
  - exists (match build_params data_c3_bad 1 1 with
            | inl e => e | inr _ => mkExc ValueError "" end).
    assert (He : build_params data_c3_bad 1 1
                 = inl (match build_params data_c3_bad 1 1 with
                        | inl e => e | inr _ => mkExc ValueError "" end))
      by (vm_compute; reflexivity).
    split; [exact He |].
    exact (proj2 (build_params_checks_only_gen_bus data_c3_bad 1 1) _ He).
Defined.

Lemma dc_flow_guarded_witness :
  (exists e, build_uc_model data_c8_bad 1 1 = inl e /\ exc_type e <> ZeroDivisionError) /\
  build_uc_model data_c8 1 1 = inr model_c8 /\
  (exists c, In (CDcFlow "L1" 1, c) (m_cons model_c8) /\
     forall σ, sat σ c <->
       σ (Vflow "L1" 1) == (σ (Vtheta 1 1) - σ (Vtheta 2 1)) / (1 # 10)) /\
  (exists c, In (CDcFlow "L0" 1, c) (m_cons model_c8) /\
     forall σ, sat σ c <-> σ (Vflow "L0" 1) == 0).
Proof.
  destruct (dc_flow_guarded data_c8_bad 1 1) as [Herr _].
  destruct (dc_flow_guarded data_c8 1 1) as [_ Hok].
  assert (HM : build_uc_model data_c8 1 1 = inr model_c8) by (vm_compute; reflexivity).
  assert (Ht : In 1%Z (P_T (m_params model_c8))) by in_list.
  assert (H1 : In "L1" (P_L (m_params model_c8))) by in_list.
  assert (H0 : In "L0" (P_L (m_params model_c8))) by in_list.
  split.
  - exists (match build_uc_model data_c8_bad 1 1 with
            | inl e => e | inr _ => mkExc ValueError "" end).
    assert (He : build_uc_model data_c8_bad 1 1
                 = inl (match build_uc_model data_c8_bad 1 1 with
                        | inl e => e | inr _ => mkExc ValueError "" end))
      by (vm_compute; reflexivity).
    split; [exact He | exact (Herr _ He)].
  - split; [exact HM |]. split.
    + exact (Hok model_c8 "L1" 1%Z HM H1 Ht).
    + exact (Hok model_c8 "L0" 1%Z HM H0 Ht).
Defined.

Lemma min_windows_exact_witness :
  build_uc_model data_c7 4 1 = inr model_c7 /\
  (exists c, In (CMinUp "G1" 2, c) (m_cons model_c7)) /\
  ~ (exists c, In (CMinUp "G1" 3, c) (m_cons model_c7)) /\
  (exists c, In (CMinDown "G1" 3, c) (m_cons model_c7)).
Proof.
  assert (HM : build_uc_model data_c7 4 1 = inr model_c7) by (vm_compute; reflexivity).
  destruct (min_windows_exact data_c7 4 1 model_c7 HM) as [Hup Hdown].
  split; [exact HM |]. split; [| split].
  - apply (proj2 (Hup "G1" 2%Z)). vm_compute. split; [left; reflexivity |].
    repeat split; discriminate.
  - intros Hc. apply (proj1 (Hup "G1" 3%Z)) in Hc.
    destruct Hc as (_ & _ & _ & Hc). vm_compute in Hc. apply Hc. reflexivity.
  - apply (proj2 (Hdown "G1" 3%Z)). vm_compute. split; [left; reflexivity |].
    repeat split; discriminate.
Defined.

Lemma nodal_balance_missing_zero_witness :
  (exists y, nodal_balance (set_forecasts (m_params model_c2) dem_c10 ∅) (1%Z, 1%Z) = inr y /\
     le_const (c_lhs (snd y)) == -7) /\
  (dem_c10 !! 1%Z ≫= fun mb => mb !! 2%Z) = None /\ get2 dem_c10 1 2 = 0.
Proof.
  set (P := set_forecasts (m_params model_c2) dem_c10 ∅).
  destruct (nodal_balance_missing_zero P 1 1) as (_ & H2 & _).
  destruct (nodal_balance_missing_zero P 2 1) as (_ & _ & H3 & _).
  assert (Hn : (dem_c10 !! 1%Z ≫= fun mb => mb !! 2%Z) = None) by (vm_compute; reflexivity).
  split; [| split; [exact Hn | exact (H3 dem_c10 Hn)]].
  destruct (nodal_balance P (1%Z, 1%Z)) as [e | y] eqn:E.
  - vm_compute in E. discriminate E.
  - exists y. split; [reflexivity |].
    destruct (H2 y eq_refl) as (_ & _ & _ & Hc).
    eapply Qeq_trans; [exact Hc |]. vm_compute. reflexivity.
Defined.

(* ================================================================== *)
(** * Further properties of the builder, the solve driver and the export *)

(** ** Evaluating linear expressions *)

Lemma fold_eval_shift (σ : Var -> Q) (ts : list (Q * Var)) (c : Q) :
  fold_right (fun '(k, x) acc => k * σ x + acc) c ts
  == fold_right (fun '(k, x) acc => k * σ x + acc) 0 ts + c.
Proof.
  induction ts as [| [k x] ts IH]; simpl; [ring |]. rewrite IH. ring.
Qed.

Lemma eval_ladd (σ : Var -> Q) (a b : LinExpr) :
  eval σ (ladd a b) == eval σ a + eval σ b.
Proof.
  destruct a as [ta ca], b as [tb cb]. unfold ladd, eval. simpl.
  rewrite fold_right_app.
  rewrite (fold_eval_shift σ ta (fold_right _ (ca + cb) tb)).
  rewrite (fold_eval_shift σ tb (ca + cb)).
  rewrite (fold_eval_shift σ ta ca), (fold_eval_shift σ tb cb). ring.
Qed.

Lemma eval_lscale (σ : Var -> Q) (c : Q) (e : LinExpr) :
  eval σ (lscale c e) == c * eval σ e.
Proof.
  destruct e as [ts ce]. unfold lscale, eval. simpl.
  induction ts as [| [k x] ts IH]; simpl; [reflexivity |]. rewrite IH. ring.
Qed.

Lemma eval_lvar (σ : Var -> Q) (x : Var) : eval σ (lvar x) == σ x.
Proof. unfold eval. simpl. ring. Qed.

Lemma eval_lcst (σ : Var -> Q) (c : Q) : eval σ (lcst c) == c.
Proof. reflexivity. Qed.

Lemma eval_lsub (σ : Var -> Q) (a b : LinExpr) :
  eval σ (lsub a b) == eval σ a - eval σ b.
Proof. unfold lsub. rewrite eval_ladd, eval_lscale. ring. Qed.

Lemma eval_fold_ladd (σ : Var -> Q) (l : list LinExpr) (acc : LinExpr) :
  eval σ (fold_left ladd l acc) == eval σ acc + qsum (map (eval σ) l).
Proof.
  revert acc. induction l as [| e l IH]; intros acc; simpl; [ring |].
  rewrite IH, eval_ladd. ring.
Qed.

Lemma eval_lsum (σ : Var -> Q) (l : list LinExpr) :
  eval σ (lsum l) == qsum (map (eval σ) l).
Proof. unfold lsum. rewrite eval_fold_ladd. rewrite eval_lcst. ring. Qed.

Lemma qsum_map_ext {A} (f h : A -> Q) (l : list A) :
  (forall x, In x l -> f x == h x) -> qsum (map f l) == qsum (map h l).
Proof.
  induction l as [| a l IH]; intros H; simpl; [reflexivity |].
  rewrite (H a (or_introl eq_refl)), IH by (intros x Hx; apply H; right; exact Hx).
  reflexivity.
Qed.

Lemma qsum_map_le {A} (f h : A -> Q) (l : list A) :
  (forall x, In x l -> f x <= h x) -> qsum (map f l) <= qsum (map h l).
Proof.
  induction l as [| a l IH]; intros H; simpl; [apply Qle_refl |].
  apply Qplus_le_compat; [apply H; left; reflexivity |].
  apply IH. intros x Hx. apply H. right. exact Hx.
Qed.

Lemma qsum_map_plus {A} (f h : A -> Q) (l : list A) :
  qsum (map (fun x => f x + h x) l) == qsum (map f l) + qsum (map h l).
Proof. induction l as [| a l IH]; simpl; [ring |]. rewrite IH. ring. Qed.

Lemma qsum_map_minus {A} (f h : A -> Q) (l : list A) :
  qsum (map (fun x => f x - h x) l) == qsum (map f l) - qsum (map h l).
Proof. induction l as [| a l IH]; simpl; [ring |]. rewrite IH. ring. Qed.

Lemma qsum_map_const {A} (c : Q) (l : list A) :
  qsum (map (fun _ => c) l) == inject_Z (Z.of_nat (length l)) * c.
Proof.
  induction l as [| a l IH]; simpl; [ring |]. rewrite IH.
  rewrite Nat2Z.inj_succ, <- Z.add_1_r, inject_Z_plus. ring.
Qed.

Lemma qsum_ge_elem {A} (f : A -> Q) (l : list A) (k : A) :
  (forall x, In x l -> 0 <= f x) -> In k l -> f k <= qsum (map f l).
Proof.
  induction l as [| a l IH]; intros H Hk; [destruct Hk |]. simpl.
  destruct Hk as [-> | Hk].
  - assert (0 <= qsum (map f l)).
    { clear IH. induction l as [| b l IHl]; simpl; [apply Qle_refl |].
      assert (0 <= f b) by (apply H; right; left; reflexivity).
      assert (0 <= qsum (map f l)).
      { apply IHl. intros x Hx. apply H. destruct Hx as [<- | Hx];
          [left; reflexivity | right; right; exact Hx]. }
      lra. }
    lra.
  - assert (0 <= f a) by (apply H; left; reflexivity).
    assert (f k <= qsum (map f l)) by (apply IH; [intros x Hx; apply H; right; exact Hx | exact Hk]).
    lra.
Qed.

Lemma qsum_eval_lvar {A} (σ : Var -> Q) (f : A -> Var) (l : list A) :
  qsum (map (eval σ) (map (fun a => lvar (f a)) l)) == qsum (map (fun a => σ (f a)) l).
Proof.
  induction l as [| a l IH]; simpl; [reflexivity |]. rewrite IH, eval_lvar. reflexivity.
Qed.

Ltac eval_simpl H :=
  unfold lzero in H;
  repeat first [ rewrite eval_lsub in H | rewrite eval_ladd in H
               | rewrite eval_lscale in H | rewrite eval_lvar in H
               | rewrite eval_lcst in H | rewrite eval_lsum in H ].

(** ** Constraints at a feasible point *)

(** At a feasible point of a built model, the constraint that a component
    builds at any of its indices is satisfied. *)
Lemma feasible_rule {A} (data : Data) (horizon : Z) (nseg : nat) (M : UCModel)
    (σ : Var -> Q) (R : A -> res (ConName * Con)) (I : list A) (x : A) :
  build_uc_model data horizon nseg = inr M -> feasible σ M ->
  In (mapM R I) (families (m_params M)) -> In x I ->
  exists y, R x = inr y /\ sat σ (snd y).
Proof.
  intros HM [_ Hsat] Hfam Hx.
  destruct (build_inv _ _ _ _ HM) as (_ & _ & _ & css & Hc & Hcons).
  destruct (rule_in_model _ css R I Hc Hfam x Hx) as (y & Hy & Hin).
  exists y. split; [exact Hy |]. apply Hsat. rewrite Hcons. exact Hin.
Qed.

Lemma build_fields (data : Data) (horizon : Z) (nseg : nat) (M : UCModel) :
  build_uc_model data horizon nseg = inr M ->
  P_horizon (m_params M) = horizon /\ P_nseg (m_params M) = nseg /\
  P_T (m_params M) = zrange 1 (horizon + 1) /\
  P_gens (m_params M) = d_gens data /\
  P_G (m_params M) = map g_name (d_gens data) /\
  P_B (m_params M) = sort_Z (default [] (d_buses data)) /\
  P_lines (m_params M) = default [] (d_lines data) /\
  P_L (m_params M) = map l_name (default [] (d_lines data)) /\
  P_demand (m_params M) = d_demand data.
Proof.
  intros HM. destruct (build_inv _ _ _ _ HM) as (HP & _).
  exact (build_params_inv _ _ _ _ HP).
Qed.

Ltac open_con Hy Hs rule :=
  cbv beta iota zeta delta [rule] in Hy; apply mkcon_inv in Hy; subst;
  cbn [snd sat c_sense c_lhs c_rhs] in Hs; eval_simpl Hs.

(** Output bounds: at every feasible point, [pmin(g) u(g,t) <= p(g,t) <=
    pmax(g) u(g,t)], so an uncommitted unit produces nothing. *)
Theorem gen_output_bounds (data : Data) (horizon : Z) (nseg : nat) (M : UCModel)
    (σ : Var -> Q) (g : string) (t : Z) :
  build_uc_model data horizon nseg = inr M -> feasible σ M ->
  In g (P_G (m_params M)) -> In t (P_T (m_params M)) ->
  pmin_p (d_gens data) g * σ (Vu g t) <= σ (Vp g t) <= pmax_p (d_gens data) g * σ (Vu g t).
Proof.
  intros HM Hf Hg Ht.
  destruct (build_fields _ _ _ _ HM) as (_ & _ & _ & Hgens & _).
  destruct (feasible_rule _ _ _ _ σ (gen_lb_rule (m_params M)) _ (g, t) HM Hf
              ltac:(in_families) (in_GT _ _ _ Hg Ht)) as (y1 & Hy1 & Hs1).
  destruct (feasible_rule _ _ _ _ σ (gen_ub_rule (m_params M)) _ (g, t) HM Hf
              ltac:(in_families) (in_GT _ _ _ Hg Ht)) as (y2 & Hy2 & Hs2).
  open_con Hy1 Hs1 gen_lb_rule. open_con Hy2 Hs2 gen_ub_rule.
  unfold pmin_, pmax_ in *. rewrite Hgens in *. split; lra.
Qed.

Lemma build_series (data : Data) (horizon : Z) (nseg : nat) (M : UCModel) :
  build_uc_model data horizon nseg = inr M ->
  P_ren (m_params M)
    = default (zero_ren (P_T (m_params M)) (P_B (m_params M))) (d_renewable data) /\
  P_rs (m_params M) = default (zero_series (P_T (m_params M))) (d_reserve_spinning data) /\
  P_rns (m_params M) = default (zero_series (P_T (m_params M))) (d_reserve_nonspinning data).
Proof.
  intros HM. destruct (build_inv _ _ _ _ HM) as (HP & _).
  unfold build_params in HP.
  match type of HP with
  | (let* _ := ?m in _) = _ => destruct m as [e | u]; cbn [bind] in HP; [discriminate |]
  end. injection HP as <-. repeat split.
Qed.

Lemma in_T_after1 (P : Params) (t : Z) :
  In t (P_T P) -> (2 <= t)%Z -> In t (T_after1 P).
Proof.
  intros Ht H2. unfold T_after1. apply list_elem_of_In, list_elem_of_filter.
  split; [apply Is_true_true_2, Z.leb_le; exact H2 | apply list_elem_of_In; exact Ht].
Qed.

Lemma in_GT_after1 (P : Params) (g : string) (t : Z) :
  In g (P_G P) -> In t (P_T P) -> (2 <= t)%Z -> In (g, t) (GT_after1 P).
Proof.
  intros Hg Ht H2. unfold GT_after1. apply in_flat_map. exists g. split; [exact Hg |].
  apply in_map_iff. exists t. split; [reflexivity | apply in_T_after1; assumption].
Qed.

(** Ramp limits: at every feasible point and every period [t >= 2],
    [p(g,t) - p(g,t-1) <= ramp_up(g)] and [p(g,t-1) - p(g,t) <=
    ramp_down(g)], where a missing ramp rate is [pmax(g)]. *)
Theorem ramp_limits (data : Data) (horizon : Z) (nseg : nat) (M : UCModel)
    (σ : Var -> Q) (g : string) (t : Z) :
  build_uc_model data horizon nseg = inr M -> feasible σ M ->
  In g (P_G (m_params M)) -> In t (P_T (m_params M)) -> (2 <= t)%Z ->
  σ (Vp g t) - σ (Vp g (t - 1)) <= ramp_up_p (d_gens data) g /\
  σ (Vp g (t - 1)) - σ (Vp g t) <= ramp_down_p (d_gens data) g.
Proof.
  intros HM Hf Hg Ht H2.
  destruct (build_fields _ _ _ _ HM) as (_ & _ & _ & Hgens & _).
  destruct (feasible_rule _ _ _ _ σ (ramp_up_rule (m_params M)) _ (g, t) HM Hf
              ltac:(in_families) (in_GT_after1 _ _ _ Hg Ht H2)) as (y1 & Hy1 & Hs1).
  destruct (feasible_rule _ _ _ _ σ (ramp_down_rule (m_params M)) _ (g, t) HM Hf
              ltac:(in_families) (in_GT_after1 _ _ _ Hg Ht H2)) as (y2 & Hy2 & Hs2).
  open_con Hy1 Hs1 ramp_up_rule. open_con Hy2 Hs2 ramp_down_rule.
  rewrite Hgens in *. split; lra.
Qed.

(** Start-up and shut-down indicators: at every feasible point
    [v(g,t) >= u(g,t) - u(g,t-1)] and [w(g,t) >= u(g,t-1) - u(g,t)], where
    the commitment before period 1 counts as [0]: a unit committed in
    period 1 is started up in period 1. *)
Theorem commitment_transitions (data : Data) (horizon : Z) (nseg : nat) (M : UCModel)
    (σ : Var -> Q) (g : string) (t : Z) :
  build_uc_model data horizon nseg = inr M -> feasible σ M ->
  In g (P_G (m_params M)) -> In t (P_T (m_params M)) ->
  let u_before := if (t =? 1)%Z then 0 else σ (Vu g (t - 1)) in
  σ (Vu g t) - u_before <= σ (Vv g t) /\ u_before - σ (Vu g t) <= σ (Vw g t).
Proof.
  intros HM Hf Hg Ht u_before.
  destruct (feasible_rule _ _ _ _ σ start_link_rule _ (g, t) HM Hf
              ltac:(in_families) (in_GT _ _ _ Hg Ht)) as (y1 & Hy1 & Hs1).
  destruct (feasible_rule _ _ _ _ σ shut_link_rule _ (g, t) HM Hf
              ltac:(in_families) (in_GT _ _ _ Hg Ht)) as (y2 & Hy2 & Hs2).
  open_con Hy1 Hs1 start_link_rule. open_con Hy2 Hs2 shut_link_rule.
  subst u_before. unfold u_prev in *.
  destruct (t =? 1)%Z; eval_simpl Hs1; eval_simpl Hs2; split; lra.
Qed.

(** Line limits: at every feasible point [-limit(l) <= flow(l,t) <=
    limit(l)], with the limit of the last line of that name. *)
Theorem line_flow_limits (data : Data) (horizon : Z) (nseg : nat) (M : UCModel)
    (σ : Var -> Q) (l : string) (t : Z) :
  build_uc_model data horizon nseg = inr M -> feasible σ M ->
  In l (P_L (m_params M)) -> In t (P_T (m_params M)) ->
  let lim := l_limit (line_of (default [] (d_lines data)) l) in
  - lim <= σ (Vflow l t) <= lim.
Proof.
  intros HM Hf Hl Ht lim.
  destruct (build_fields _ _ _ _ HM) as (_ & _ & _ & _ & _ & _ & Hlines & _).
  destruct (feasible_rule _ _ _ _ σ (line_pos_rule (m_params M)) _ (l, t) HM Hf
              ltac:(in_families) (in_LT _ _ _ Hl Ht)) as (y1 & Hy1 & Hs1).
  destruct (feasible_rule _ _ _ _ σ (line_neg_rule (m_params M)) _ (l, t) HM Hf
              ltac:(in_families) (in_LT _ _ _ Hl Ht)) as (y2 & Hy2 & Hs2).
  open_con Hy1 Hs1 line_pos_rule. open_con Hy2 Hs2 line_neg_rule.
  subst lim. unfold line_ in *. rewrite Hlines in *. split; lra.
Qed.

(** Non-spinning reserve: at every feasible point [r_ns(g,t) <= pmax(g)
    (1 - u(g,t)) + pmax(g) - p(g,t)]; an uncommitted unit may offer up to
    [2 pmax(g)]. *)
Theorem r_ns_bound_holds (data : Data) (horizon : Z) (nseg : nat) (M : UCModel)
    (σ : Var -> Q) (g : string) (t : Z) :
  build_uc_model data horizon nseg = inr M -> feasible σ M ->
  In g (P_G (m_params M)) -> In t (P_T (m_params M)) ->
  σ (Vrns g t)
  <= pmax_p (d_gens data) g * (1 - σ (Vu g t)) + (pmax_p (d_gens data) g - σ (Vp g t)).
Proof.
  intros HM Hf Hg Ht.
  destruct (build_fields _ _ _ _ HM) as (_ & _ & _ & Hgens & _).
  destruct (feasible_rule _ _ _ _ σ (r_ns_bound_rule (m_params M)) _ (g, t) HM Hf
              ltac:(in_families) (in_GT _ _ _ Hg Ht)) as (y & Hy & Hs).
  open_con Hy Hs r_ns_bound_rule. unfold pmax_ in Hs. rewrite Hgens in Hs. lra.
Qed.

(** System reserves: at every feasible point and period [t], the
    spinning reserves sum to at least the spinning requirement, the
    non-spinning reserves to at least the non-spinning requirement, and
    the headroom [sum (pmax u - p)] is at least the spinning requirement.
    A requirement series absent from the data is [0] in every period. *)
Theorem reserve_requirements (data : Data) (horizon : Z) (nseg : nat) (M : UCModel)
    (σ : Var -> Q) (t : Z) :
  build_uc_model data horizon nseg = inr M -> feasible σ M ->
  In t (P_T (m_params M)) ->
  let T := P_T (m_params M) in
  let G := map g_name (d_gens data) in
  let rs := get1 (default (zero_series T) (d_reserve_spinning data)) t in
  let rns := get1 (default (zero_series T) (d_reserve_nonspinning data)) t in
  rs <= qsum (map (fun g => σ (Vrsp g t)) G) /\
  rns <= qsum (map (fun g => σ (Vrns g t)) G) /\
  rs <= qsum (map (fun g => pmax_p (d_gens data) g * σ (Vu g t) - σ (Vp g t)) G).
Proof.
  intros HM Hf Ht T G rs rns.
  destruct (build_fields _ _ _ _ HM) as (_ & _ & _ & Hgens & HG & _).
  destruct (build_series _ _ _ _ HM) as (_ & Hrs & Hrns).
  destruct (feasible_rule _ _ _ _ σ (spin_req_rule (m_params M)) _ t HM Hf
              ltac:(in_families) Ht) as (y1 & Hy1 & Hs1).
  destruct (feasible_rule _ _ _ _ σ (ns_req_rule (m_params M)) _ t HM Hf
              ltac:(in_families) Ht) as (y2 & Hy2 & Hs2).
  destruct (feasible_rule _ _ _ _ σ (spin_avail_rule (m_params M)) _ t HM Hf
              ltac:(in_families) Ht) as (y3 & Hy3 & Hs3).
  open_con Hy1 Hs1 spin_req_rule. open_con Hy2 Hs2 ns_req_rule.
  open_con Hy3 Hs3 spin_avail_rule.
  rewrite qsum_eval_lvar in Hs1, Hs2.
  rewrite map_map in Hs3.
  rewrite (qsum_map_ext _ (fun g => pmax_ (m_params M) g * σ (Vu g t) - σ (Vp g t)))
    in Hs3 by (intros x _; rewrite eval_lsub, eval_lscale, !eval_lvar; reflexivity).
  subst rs rns T G. rewrite <- Hrs, <- Hrns, <- HG.
  unfold pmax_ in Hs3. rewrite Hgens in Hs3. repeat split; lra.
Qed.

Lemma point_domain (l : list (Var * Q)) :
  Forall (fun '(y, q) => var_domain y q) l -> forall x, var_domain x (point l x).
Proof.
  intros Hl x. unfold point.
  destruct (find (fun '(y, _) => bool_decide (y = x)) l) as [[y q] |] eqn:E.
  - apply find_some in E as [Hin Hyx]. apply bool_decide_eq_true in Hyx. subst y.
    rewrite List.Forall_forall in Hl. exact (Hl _ Hin).
  - destruct x; cbn; first [left; reflexivity | lra | exact I].
Qed.

Ltac point_feasible :=
  split;
  [ apply point_domain;
    repeat (constructor; [cbn; first [right; reflexivity | lra | exact I] |]);
    constructor
  | intros nc Hin; apply satb_sat;
    match goal with
    | Hin : In nc (m_cons ?M) |- satb ?σ _ = true =>
        assert (Hall : forallb (fun nc => satb σ (snd nc)) (m_cons M) = true)
          by (vm_compute; reflexivity);
        rewrite forallb_forall in Hall; exact (Hall nc Hin)
    end ].

Lemma build_x : build_uc_model data_x 2 1 = inr model_x.
Proof. vm_compute. reflexivity. Qed.

Lemma sigma_x_feasible : feasible sigma_x model_x.
Proof. point_feasible. Qed.

Lemma build_y : build_uc_model data_y 1 1 = inr model_y.
Proof. vm_compute. reflexivity. Qed.

Lemma sigma_y_feasible : feasible sigma_y model_y.
Proof. point_feasible. Qed.

Lemma gen_output_bounds_witness :
  build_uc_model data_x 2 1 = inr model_x /\ feasible sigma_x model_x /\
  In "G1" (P_G (m_params model_x)) /\ In 1%Z (P_T (m_params model_x)) /\
  pmin_p (d_gens data_x) "G1" * sigma_x (Vu "G1" 1) <= sigma_x (Vp "G1" 1)
    <= pmax_p (d_gens data_x) "G1" * sigma_x (Vu "G1" 1).
Proof.
  assert (H3 : In "G1" (P_G (m_params model_x))) by in_list.
  assert (H4 : In 1%Z (P_T (m_params model_x))) by in_list.
  split; [exact build_x |]. split; [exact sigma_x_feasible |].
  split; [exact H3 |]. split; [exact H4 |].
  exact (gen_output_bounds data_x 2 1 model_x sigma_x "G1" 1 build_x sigma_x_feasible H3 H4).
Defined.

Lemma ramp_limits_witness :
  build_uc_model data_x 2 1 = inr model_x /\ feasible sigma_x model_x /\
  In "G1" (P_G (m_params model_x)) /\ In 2%Z (P_T (m_params model_x)) /\ (2 <= 2)%Z /\
  sigma_x (Vp "G1" 2) - sigma_x (Vp "G1" (2 - 1)) <= ramp_up_p (d_gens data_x) "G1" /\
  sigma_x (Vp "G1" (2 - 1)) - sigma_x (Vp "G1" 2) <= ramp_down_p (d_gens data_x) "G1".
Proof.
  assert (H3 : In "G1" (P_G (m_params model_x))) by in_list.
  assert (H4 : In 2%Z (P_T (m_params model_x))) by in_list.
  assert (H5 : (2 <= 2)%Z) by lia.
  split; [exact build_x |]. split; [exact sigma_x_feasible |].
  split; [exact H3 |]. split; [exact H4 |]. split; [exact H5 |].
  exact (ramp_limits data_x 2 1 model_x sigma_x "G1" 2 build_x sigma_x_feasible H3 H4 H5).
Defined.

Lemma commitment_transitions_witness :
  build_uc_model data_x 2 1 = inr model_x /\ feasible sigma_x model_x /\
  In "G1" (P_G (m_params model_x)) /\ In 1%Z (P_T (m_params model_x)) /\
  sigma_x (Vu "G1" 1) - 0 <= sigma_x (Vv "G1" 1) /\
  0 - sigma_x (Vu "G1" 1) <= sigma_x (Vw "G1" 1).
Proof.
  assert (H3 : In "G1" (P_G (m_params model_x))) by in_list.
  assert (H4 : In 1%Z (P_T (m_params model_x))) by in_list.
  split; [exact build_x |]. split; [exact sigma_x_feasible |].
  split; [exact H3 |]. split; [exact H4 |].
  exact (commitment_transitions data_x 2 1 model_x sigma_x "G1" 1
           build_x sigma_x_feasible H3 H4).
Defined.

Lemma line_flow_limits_witness :
  build_uc_model data_y 1 1 = inr model_y /\ feasible sigma_y model_y /\
  In "L1" (P_L (m_params model_y)) /\ In 1%Z (P_T (m_params model_y)) /\
  - l_limit (line_of (default [] (d_lines data_y)) "L1") <= sigma_y (Vflow "L1" 1)
    <= l_limit (line_of (default [] (d_lines data_y)) "L1").
Proof.
  assert (H3 : In "L1" (P_L (m_params model_y))) by in_list.
  assert (H4 : In 1%Z (P_T (m_params model_y))) by in_list.
  split; [exact build_y |]. split; [exact sigma_y_feasible |].
  split; [exact H3 |]. split; [exact H4 |].
  exact (line_flow_limits data_y 1 1 model_y sigma_y "L1" 1 build_y sigma_y_feasible H3 H4).
Defined.

Lemma r_ns_bound_holds_witness :
  build_uc_model data_x 2 1 = inr model_x /\ feasible sigma_x model_x /\
  In "G1" (P_G (m_params model_x)) /\ In 1%Z (P_T (m_params model_x)) /\
  sigma_x (Vrns "G1" 1)
  <= pmax_p (d_gens data_x) "G1" * (1 - sigma_x (Vu "G1" 1))
     + (pmax_p (d_gens data_x) "G1" - sigma_x (Vp "G1" 1)).
Proof.
  assert (H3 : In "G1" (P_G (m_params model_x))) by in_list.
  assert (H4 : In 1%Z (P_T (m_params model_x))) by in_list.
  split; [exact build_x |]. split; [exact sigma_x_feasible |].
  split; [exact H3 |]. split; [exact H4 |].
  exact (r_ns_bound_holds data_x 2 1 model_x sigma_x "G1" 1 build_x sigma_x_feasible H3 H4).
Defined.

Lemma reserve_requirements_witness :
  build_uc_model data_x 2 1 = inr model_x /\ feasible sigma_x model_x /\
  In 1%Z (P_T (m_params model_x)) /\
  get1 (default (zero_series (P_T (m_params model_x))) (d_reserve_spinning data_x)) 1
    <= qsum (map (fun g => sigma_x (Vrsp g 1)) (map g_name (d_gens data_x))) /\
  get1 (default (zero_series (P_T (m_params model_x))) (d_reserve_nonspinning data_x)) 1
    <= qsum (map (fun g => sigma_x (Vrns g 1)) (map g_name (d_gens data_x))) /\
  get1 (default (zero_series (P_T (m_params model_x))) (d_reserve_spinning data_x)) 1
    <= qsum (map (fun g => pmax_p (d_gens data_x) g * sigma_x (Vu g 1) - sigma_x (Vp g 1))
              (map g_name (d_gens data_x))).
Proof.
  assert (H3 : In 1%Z (P_T (m_params model_x))) by in_list.
  split; [exact build_x |]. split; [exact sigma_x_feasible |]. split; [exact H3 |].
  exact (reserve_requirements data_x 2 1 model_x sigma_x 1 build_x sigma_x_feasible H3).
Defined.

Lemma in_GST (P : Params) (g : string) (s : nat) (t : Z) :
  In g (P_G P) -> In s (S_ P g) -> In t (P_T P) -> In (g, s, t) (GST P).
Proof.
  intros Hg Hs Ht. unfold GST. apply in_flat_map. exists (g, s). split.
  - unfold seg_index. apply in_flat_map. exists g. split; [exact Hg |].
    apply in_map_iff. exists s. split; [reflexivity | exact Hs].
  - cbn beta iota. apply in_map_iff. exists t. split; [reflexivity | exact Ht].
Qed.

Lemma segments_zero (pmin pmax : Q) :
  pmin < pmax -> piecewise_segments pmin pmax 0 = [].
Proof. intros Hlt. unfold piecewise_segments. rewrite Qle_bool_false by exact Hlt. reflexivity. Qed.

Lemma segments_flat (pmin pmax : Q) (N : nat) :
  pmax <= pmin -> piecewise_segments pmin pmax N = [(pmin, pmax)].
Proof.
  intros Hle. unfold piecewise_segments.
  replace (Qle_bool pmax pmin) with true by (symmetry; apply Qle_bool_iff; exact Hle).
  reflexivity.
Qed.

(** At a feasible point, [p(g,t)] is the sum of the segment outputs of
    [g] at [t] and each segment output lies in [[0, hi_s - lo_s]]. *)
Lemma seg_facts (data : Data) (horizon : Z) (nseg : nat) (M : UCModel)
    (σ : Var -> Q) (g : string) (t : Z) :
  build_uc_model data horizon nseg = inr M -> feasible σ M ->
  In g (P_G (m_params M)) -> In t (P_T (m_params M)) ->
  let segs := piecewise_segments (pmin_p (d_gens data) g) (pmax_p (d_gens data) g) nseg in
  σ (Vp g t) == qsum (map (fun s => σ (Vpseg g s t)) (seq 0 (length segs))) /\
  forall s, In s (seq 0 (length segs)) ->
    0 <= σ (Vpseg g s t) /\
    σ (Vpseg g s t) <= snd (nth s segs (0, 0)) - fst (nth s segs (0, 0)).
Proof.
  intros HM Hf Hg Ht segs.
  destruct (feasible_rule _ _ _ _ σ (seg_sum_rule (m_params M)) _ (g, t) HM Hf
              ltac:(in_families) (in_GT _ _ _ Hg Ht)) as (y & Hy & Hs).
  open_con Hy Hs seg_sum_rule. unfold psegs in Hs.
  rewrite eval_lsum, qsum_eval_lvar in Hs.
  assert (Hb : forall s, In s (S_ (m_params M) g) ->
            σ (Vpseg g s t) <= seg_hi (m_params M) g s - seg_lo (m_params M) g s).
  { intros s Hs'.
    destruct (feasible_rule _ _ _ _ σ (seg_bounds_rule (m_params M)) _ (g, s, t) HM Hf
                ltac:(in_families) (in_GST _ _ _ _ Hg Hs' Ht)) as (y' & Hy' & Hs2).
    open_con Hy' Hs2 seg_bounds_rule. exact Hs2. }
  destruct (build_fields _ _ _ _ HM) as (_ & Hn & _ & Hgens & _).
  unfold S_, seg_hi, seg_lo, segs_, seg_bounds in Hs, Hb.
  rewrite Hgens, Hn in Hs, Hb. fold segs in Hs, Hb.
  split; [lra |]. intros s Hin. split; [| exact (Hb s Hin)].
  destruct Hf as [Hdom _]. exact (Hdom (Vpseg g s t)).
Qed.

(** Dispatch span: for a generator with [pmin < pmax], every feasible
    point has [p(g,t) <= pmax - pmin], since [p] is the sum of the
    segment outputs and the segment widths add up to [pmax - pmin]. With
    the lower output bound [p >= pmin u], a unit with [pmax < 2 pmin] is
    therefore never committed ([u(g,t) = 0]). With [nseg = 0] there is no
    segment and [p(g,t) = 0]. *)
Theorem dispatch_within_span (data : Data) (horizon : Z) (nseg : nat) (M : UCModel)
    (σ : Var -> Q) (g : string) (t : Z) :
  build_uc_model data horizon nseg = inr M -> feasible σ M ->
  In g (P_G (m_params M)) -> In t (P_T (m_params M)) ->
  pmin_p (d_gens data) g < pmax_p (d_gens data) g ->
  σ (Vp g t) <= pmax_p (d_gens data) g - pmin_p (d_gens data) g /\
  (nseg = 0%nat -> σ (Vp g t) == 0) /\
  (pmax_p (d_gens data) g < 2 * pmin_p (d_gens data) g -> σ (Vu g t) = 0).
Proof.
  intros HM Hf Hg Ht Hlt.
  destruct (feasible_rule _ _ _ _ σ (gen_lb_rule (m_params M)) _ (g, t) HM Hf
              ltac:(in_families) (in_GT _ _ _ Hg Ht)) as (y & Hy & Hl).
  open_con Hy Hl gen_lb_rule.
  assert (Hu := proj1 Hf (Vu g t)). cbn in Hu.
  destruct (build_fields _ _ _ _ HM) as (_ & _ & _ & Hgens & _).
  unfold pmin_ in Hl. rewrite Hgens in Hl.
  destruct (seg_facts data horizon nseg M σ g t HM Hf Hg Ht) as [Hs Hb].
  set (a := pmin_p (d_gens data) g) in *. set (b := pmax_p (d_gens data) g) in *.
  assert (Hspan : σ (Vp g t) <= b - a /\ (nseg = 0%nat -> σ (Vp g t) == 0)).
  { destruct nseg as [| N].
    - rewrite segments_zero in Hs by exact Hlt. cbn in Hs.
      split; [lra | intros _; exact Hs].
    - destruct (segments_shape a b (S N) Hlt ltac:(lia)) as [Hlen _].
      destruct (segments_links a b (S N) Hlt ltac:(lia)) as (_ & _ & _ & Hw).
      cbv zeta in Hw. rewrite Hlen in Hs, Hb.
      assert (Hle : qsum (map (fun s => σ (Vpseg g s t)) (seq 0 (S N)))
                    <= qsum (map (fun _ => (b - a) / inject_Z (Z.of_nat (S N))) (seq 0 (S N)))).
      { apply qsum_map_le. intros s Hin. rewrite <- (Hw s).
        - apply (Hb s Hin).
        - apply in_seq in Hin. lia. }
      rewrite qsum_map_const, length_seq in Hle.
      assert (Hnz : ~ inject_Z (Z.of_nat (S N)) == 0).
      { intros E. unfold Qeq in E. simpl in E. lia. }
      assert (E : inject_Z (Z.of_nat (S N)) * ((b - a) / inject_Z (Z.of_nat (S N))) == b - a)
        by (field; exact Hnz).
      split; [lra | discriminate]. }
  destruct Hspan as [H1 H2]. split; [exact H1 |]. split; [exact H2 |].
  intros H2a. destruct Hu as [Hu | Hu]; [exact Hu |].
  rewrite Hu in Hl. exfalso. lra.
Qed.

(** Degenerate output range: for a generator with [pmax <= pmin], the
    single segment [(pmin, pmax)] has a non-positive width, so a feasible
    point exists only if [pmax = pmin], and then [p(g,t) = 0]; if moreover
    [pmin > 0], the unit is never committed. *)
Theorem flat_range_no_output (data : Data) (horizon : Z) (nseg : nat) (M : UCModel)
    (σ : Var -> Q) (g : string) (t : Z) :
  build_uc_model data horizon nseg = inr M -> feasible σ M ->
  In g (P_G (m_params M)) -> In t (P_T (m_params M)) ->
  pmax_p (d_gens data) g <= pmin_p (d_gens data) g ->
  pmax_p (d_gens data) g == pmin_p (d_gens data) g /\ σ (Vp g t) == 0 /\
  (0 < pmin_p (d_gens data) g -> σ (Vu g t) = 0).
Proof.
  intros HM Hf Hg Ht Hle.
  destruct (seg_facts data horizon nseg M σ g t HM Hf Hg Ht) as [Hs Hb].
  destruct (feasible_rule _ _ _ _ σ (gen_lb_rule (m_params M)) _ (g, t) HM Hf
              ltac:(in_families) (in_GT _ _ _ Hg Ht)) as (y & Hy & Hl).
  open_con Hy Hl gen_lb_rule.
  destruct (build_fields _ _ _ _ HM) as (_ & _ & _ & Hgens & _).
  unfold pmin_ in Hl. rewrite Hgens in Hl.
  rewrite segments_flat in Hs, Hb by exact Hle. cbn in Hs.
  destruct (Hb 0%nat (or_introl eq_refl)) as [H0 H1]. cbn in H1.
  assert (Hu := proj1 Hf (Vu g t)). cbn in Hu.
  split; [lra |]. split; [lra |].
  intros Hpos. destruct Hu as [Hu | Hu]; [exact Hu |].
  rewrite Hu in Hl. lra.
Qed.

Lemma build_z : build_uc_model data_z 1 1 = inr model_z.
Proof. vm_compute. reflexivity. Qed.

Lemma sigma_z_feasible : feasible sigma_z model_z.
Proof. point_feasible. Qed.

Lemma dispatch_within_span_witness :
  build_uc_model data_x 2 1 = inr model_x /\ feasible sigma_x model_x /\
  In "G1" (P_G (m_params model_x)) /\ In 1%Z (P_T (m_params model_x)) /\
  pmin_p (d_gens data_x) "G1" < pmax_p (d_gens data_x) "G1" /\
  sigma_x (Vp "G1" 1) <= pmax_p (d_gens data_x) "G1" - pmin_p (d_gens data_x) "G1" /\
  (1%nat = 0%nat -> sigma_x (Vp "G1" 1) == 0) /\
  (pmax_p (d_gens data_x) "G1" < 2 * pmin_p (d_gens data_x) "G1" -> sigma_x (Vu "G1" 1) = 0).
Proof.
  assert (H3 : In "G1" (P_G (m_params model_x))) by in_list.
  assert (H4 : In 1%Z (P_T (m_params model_x))) by in_list.
  assert (H5 : pmin_p (d_gens data_x) "G1" < pmax_p (d_gens data_x) "G1")
    by (vm_compute; reflexivity).
  split; [exact build_x |]. split; [exact sigma_x_feasible |].
  split; [exact H3 |]. split; [exact H4 |]. split; [exact H5 |].
  exact (dispatch_within_span data_x 2 1 model_x sigma_x "G1" 1
           build_x sigma_x_feasible H3 H4 H5).
Defined.

Lemma flat_range_no_output_witness :
  build_uc_model data_z 1 1 = inr model_z /\ feasible sigma_z model_z /\
  In "G1" (P_G (m_params model_z)) /\ In 1%Z (P_T (m_params model_z)) /\
  pmax_p (d_gens data_z) "G1" <= pmin_p (d_gens data_z) "G1" /\
  pmax_p (d_gens data_z) "G1" == pmin_p (d_gens data_z) "G1" /\
  sigma_z (Vp "G1" 1) == 0 /\
  (0 < pmin_p (d_gens data_z) "G1" -> sigma_z (Vu "G1" 1) = 0).
Proof.
  assert (H3 : In "G1" (P_G (m_params model_z))) by in_list.
  assert (H4 : In 1%Z (P_T (m_params model_z))) by in_list.
  assert (H5 : pmax_p (d_gens data_z) "G1" <= pmin_p (d_gens data_z) "G1")
    by (vm_compute; discriminate).
  split; [exact build_z |]. split; [exact sigma_z_feasible |].
  split; [exact H3 |]. split; [exact H4 |]. split; [exact H5 |].
  exact (flat_range_no_output data_z 1 1 model_z sigma_z "G1" 1
           build_z sigma_z_feasible H3 H4 H5).
Defined.

(** Minimum up and down times: let [mu] and [md] be the minimum up and
    down times of [g]. If [mu > 1] and the unit starts up in period [k]
    ([v(g,k) = 1]), it is committed in every period [j] with
    [k <= j <= k + mu - 1] and [mu <= j <= horizon]; if [md > 1] and it
    shuts down in period [k], it is off in every period [j] with
    [k <= j <= k + md - 1] and [md <= j <= horizon]. *)
Theorem min_up_down_windows (data : Data) (horizon : Z) (nseg : nat) (M : UCModel)
    (σ : Var -> Q) (g : string) (k j : Z) :
  build_uc_model data horizon nseg = inr M -> feasible σ M ->
  In g (P_G (m_params M)) -> (k <= j)%Z -> (j <= horizon)%Z ->
  let mu := min_up_p (d_gens data) g in
  let md := min_down_p (d_gens data) g in
  ((1 < mu)%Z -> (j <= k + mu - 1)%Z -> (mu <= j)%Z ->
   σ (Vv g k) == 1 -> σ (Vu g j) = 1) /\
  ((1 < md)%Z -> (j <= k + md - 1)%Z -> (md <= j)%Z ->
   σ (Vw g k) == 1 -> σ (Vu g j) = 0).
Proof.
  intros HM Hf Hg Hkj Hjh mu md.
  destruct (build_fields _ _ _ _ HM) as (Hh & _ & _ & Hgens & _).
  assert (Hdom := proj1 Hf).
  split.
  - intros Hmu Hjk Hmuj Hv.
    assert (Hin : In (g, (j - mu + 1)%Z) (min_up_idx (m_params M))).
    { apply min_up_idx_spec. rewrite Hgens, Hh. subst mu. repeat split; auto; lia. }
    destruct (feasible_rule _ _ _ _ σ (min_up_rule (m_params M)) _ _ HM Hf
                ltac:(in_families) Hin) as (y & Hy & Hs).
    open_con Hy Hs min_up_rule. rewrite qsum_eval_lvar in Hs.
    rewrite Hgens in Hs. fold mu in Hs.
    replace (j - mu + 1 + mu - 1)%Z with j in Hs by lia.
    assert (Hk : σ (Vv g k)
                 <= qsum (map (fun k0 => σ (Vv g k0)) (zrange (j - mu + 1) (j - mu + 1 + mu)))).
    { apply (qsum_ge_elem (fun k0 => σ (Vv g k0))).
      - intros x _. specialize (Hdom (Vv g x)). cbn in Hdom.
        destruct Hdom as [-> | ->]; discriminate.
      - apply zrange_In. lia. }
    specialize (Hdom (Vu g j)). cbn in Hdom.
    destruct Hdom as [Hu | Hu]; [| exact Hu]. rewrite Hu in Hs. lra.
  - intros Hmd Hjk Hmdj Hw.
    assert (Hin : In (g, (j - md + 1)%Z) (min_down_idx (m_params M))).
    { apply min_down_idx_spec. rewrite Hgens, Hh. subst md. repeat split; auto; lia. }
    destruct (feasible_rule _ _ _ _ σ (min_down_rule (m_params M)) _ _ HM Hf
                ltac:(in_families) Hin) as (y & Hy & Hs).
    open_con Hy Hs min_down_rule. rewrite qsum_eval_lvar in Hs.
    rewrite Hgens in Hs. fold md in Hs.
    replace (j - md + 1 + md - 1)%Z with j in Hs by lia.
    assert (Hk : σ (Vw g k)
                 <= qsum (map (fun k0 => σ (Vw g k0)) (zrange (j - md + 1) (j - md + 1 + md)))).
    { apply (qsum_ge_elem (fun k0 => σ (Vw g k0))).
      - intros x _. specialize (Hdom (Vw g x)). cbn in Hdom.
        destruct Hdom as [-> | ->]; discriminate.
      - apply zrange_In. lia. }
    specialize (Hdom (Vu g j)). cbn in Hdom.
    destruct Hdom as [Hu | Hu]; [exact Hu |]. rewrite Hu in Hs. lra.
Qed.

Lemma min_up_down_windows_witness :
  build_uc_model data_x 2 1 = inr model_x /\ feasible sigma_x model_x /\
  In "G1" (P_G (m_params model_x)) /\ (1 <= 2)%Z /\ (2 <= 2)%Z /\
  (1 < min_up_p (d_gens data_x) "G1")%Z /\
  (2 <= 1 + min_up_p (d_gens data_x) "G1" - 1)%Z /\
  (min_up_p (d_gens data_x) "G1" <= 2)%Z /\
  sigma_x (Vv "G1" 1) == 1 /\ sigma_x (Vu "G1" 2) = 1.
Proof.
  assert (H3 : In "G1" (P_G (m_params model_x))) by in_list.
  assert (H4 : (1 <= 2)%Z) by lia. assert (H5 : (2 <= 2)%Z) by lia.
  assert (H6 : (1 < min_up_p (d_gens data_x) "G1")%Z) by (vm_compute; reflexivity).
  assert (H7 : (2 <= 1 + min_up_p (d_gens data_x) "G1" - 1)%Z) by (vm_compute; discriminate).
  assert (H8 : (min_up_p (d_gens data_x) "G1" <= 2)%Z) by (vm_compute; discriminate).
  assert (H9 : sigma_x (Vv "G1" 1) == 1) by reflexivity.
  split; [exact build_x |]. split; [exact sigma_x_feasible |].
  split; [exact H3 |]. split; [exact H4 |]. split; [exact H5 |].
  split; [exact H6 |]. split; [exact H7 |]. split; [exact H8 |]. split; [exact H9 |].
  exact (proj1 (min_up_down_windows data_x 2 1 model_x sigma_x "G1" 1 2
                  build_x sigma_x_feasible H3 H4 H5) H6 H7 H8 H9).
Defined.

Lemma insert_Z_hd (x y : Z) (l : list Z) :
  HdRel Z.le y l -> (y <= x)%Z -> HdRel Z.le y (insert_Z x l).
Proof.
  intros H Hyx. destruct l as [| a l]; simpl.
  - constructor. exact Hyx.
  - destruct (x <=? a)%Z; constructor; [exact Hyx |]. inversion H. assumption.
Qed.

Lemma insert_Z_sorted (x : Z) (l : list Z) : Sorted Z.le l -> Sorted Z.le (insert_Z x l).
Proof.
  induction l as [| a l IH]; intros H; simpl.
  - repeat constructor.
  - destruct (x <=? a)%Z eqn:E.
    + constructor; [exact H | constructor; apply Z.leb_le; exact E].
    + inversion H; subst. constructor; [apply IH; assumption |].
      apply insert_Z_hd; [assumption |]. apply Z.leb_gt in E. lia.
Qed.

Lemma sort_Z_sorted (l : list Z) : Sorted Z.le (sort_Z l).
Proof. induction l as [| a l IH]; simpl; [constructor | apply insert_Z_sorted; exact IH]. Qed.

Lemma sort_Z_head_min (l : list Z) (b0 : Z) (r : list Z) :
  sort_Z l = b0 :: r -> forall x, In x l -> (b0 <= x)%Z.
Proof.
  intros Hs x Hx. apply sort_Z_In in Hx. rewrite Hs in Hx.
  assert (Hsort := sort_Z_sorted l). rewrite Hs in Hsort.
  apply Sorted_extends in Hsort; [| intros a b c; lia].
  destruct Hx as [-> | Hx]; [lia |].
  rewrite List.Forall_forall in Hsort. exact (Hsort x Hx).
Qed.

(** Reference angle: at every feasible point the voltage angle of the
    smallest bus of [data['buses']] is [0] in every period. *)
Theorem reference_angle_zero (data : Data) (horizon : Z) (nseg : nat) (M : UCModel)
    (σ : Var -> Q) (b0 t : Z) :
  build_uc_model data horizon nseg = inr M -> feasible σ M ->
  In t (P_T (m_params M)) -> In b0 (default [] (d_buses data)) ->
  (forall b, In b (default [] (d_buses data)) -> (b0 <= b)%Z) ->
  σ (Vtheta b0 t) == 0.
Proof.
  intros HM Hf Ht Hb0 Hmin.
  destruct (build_fields _ _ _ _ HM) as (_ & _ & _ & _ & _ & HB & _).
  destruct (sort_Z (default [] (d_buses data))) as [| rb rest] eqn:Hs.
  { apply sort_Z_In in Hb0. rewrite Hs in Hb0. destruct Hb0. }
  assert (Hrb : rb = b0).
  { assert (H1 := sort_Z_head_min _ _ _ Hs b0 Hb0).
    assert (H2 : In rb (default [] (d_buses data)))
      by (apply sort_Z_In; rewrite Hs; left; reflexivity).
    specialize (Hmin rb H2). lia. }
  subst rb.
  assert (Hin : In (ref_cons (m_params M)) (families (m_params M))) by in_families.
  unfold ref_cons in Hin. rewrite HB in Hin.
  destruct (feasible_rule _ _ _ _ σ (ref_rule b0) _ t HM Hf Hin Ht) as (y & Hy & Hsat).
  open_con Hy Hsat ref_rule. exact Hsat.
Qed.

Lemma reference_angle_zero_witness :
  build_uc_model data_y 1 1 = inr model_y /\ feasible sigma_y model_y /\
  In 1%Z (P_T (m_params model_y)) /\ In 1%Z (default [] (d_buses data_y)) /\
  (forall b, In b (default [] (d_buses data_y)) -> (1 <= b)%Z) /\
  sigma_y (Vtheta 1 1) == 0.
Proof.
  assert (H3 : In 1%Z (P_T (m_params model_y))) by in_list.
  assert (H4 : In 1%Z (default [] (d_buses data_y))) by in_list.
  assert (H5 : forall b, In b (default [] (d_buses data_y)) -> (1 <= b)%Z).
  { intros b Hb. cbn in Hb. destruct Hb as [<- | [<- | []]]; lia. }
  split; [exact build_y |]. split; [exact sigma_y_feasible |].
  split; [exact H3 |]. split; [exact H4 |]. split; [exact H5 |].
  exact (reference_angle_zero data_y 1 1 model_y sigma_y 1 1
           build_y sigma_y_feasible H3 H4 H5).
Defined.

Lemma qsum_filter_cons {A} (f : A -> Q) (p : A -> bool) (a : A) (l : list A) :
  qsum (map f (filter (fun x => p x) (a :: l)))
  == (if p a then f a else 0) + qsum (map f (filter (fun x => p x) l)).
Proof.
  rewrite filter_cons. destruct (decide _) as [H | H]; destruct (p a); simpl in *;
    first [reflexivity | ring | exfalso; exact (H I) | destruct H].
Qed.

Lemma qsum_indicator_out (k : Z) (c : Q) (B : list Z) :
  ~ In k B -> qsum (map (fun b => if (k =? b)%Z then c else 0) B) == 0.
Proof.
  induction B as [| b B IH]; intros Hk; simpl; [reflexivity |].
  destruct (k =? b)%Z eqn:E.
  - apply Z.eqb_eq in E. subst. exfalso. apply Hk. left. reflexivity.
  - rewrite IH by (intros H; apply Hk; right; exact H). ring.
Qed.

Lemma qsum_indicator (k : Z) (c : Q) (B : list Z) :
  List.NoDup B -> In k B -> qsum (map (fun b => if (k =? b)%Z then c else 0) B) == c.
Proof.
  induction B as [| b B IH]; intros Hnd Hk; [destruct Hk |]. simpl.
  inversion Hnd as [| ? ? Hb Hnd']; subst.
  destruct (k =? b)%Z eqn:E.
  - apply Z.eqb_eq in E. subst. rewrite qsum_indicator_out by exact Hb. ring.
  - destruct Hk as [-> | Hk]; [rewrite Z.eqb_refl in E; discriminate |].
    rewrite IH by assumption. ring.
Qed.

(** Grouping a sum by a key that takes values in a list without
    duplicates. *)
Lemma qsum_partition {A} (f : A -> Q) (key : A -> Z) (B : list Z) (l : list A) :
  List.NoDup B -> (forall a, In a l -> In (key a) B) ->
  qsum (map (fun b => qsum (map f (filter (fun a => (key a =? b)%Z) l))) B)
  == qsum (map f l).
Proof.
  intros HB. induction l as [| a l IH]; intros Hk.
  - rewrite (qsum_map_ext _ (fun _ => 0)) by (intros; reflexivity).
    rewrite qsum_map_const. simpl. ring.
  - rewrite (qsum_map_ext _ (fun b => (if (key a =? b)%Z then f a else 0)
                 + qsum (map f (filter (fun x => (key x =? b)%Z) l))))
      by (intros b _; apply (qsum_filter_cons f (fun x => (key x =? b)%Z))).
    rewrite qsum_map_plus, IH by (intros x Hx; apply Hk; right; exact Hx).
    rewrite qsum_indicator by (auto; apply Hk; left; reflexivity). simpl. ring.
Qed.

Lemma line_of_In (lines : list Line) (n : string) :
  In n (map l_name lines) -> In (line_of lines n) lines.
Proof.
  unfold line_of. generalize dummy_line.
  assert (Hinv : forall ls acc,
            fold_left (fun acc l => if String.eqb (l_name l) n then l else acc) ls acc = acc \/
            In (fold_left (fun acc l => if String.eqb (l_name l) n then l else acc) ls acc) ls).
  { induction ls as [| x ls IH]; intros acc; simpl; [left; reflexivity |].
    destruct (String.eqb (l_name x) n).
    - destruct (IH x) as [-> | H]; right; [left; reflexivity | right; exact H].
    - destruct (IH acc) as [-> | H]; [left; reflexivity | right; right; exact H]. }
  induction lines as [| x ls IH]; intros acc Hn; [destruct Hn |]. simpl.
  destruct (in_dec string_dec n (map l_name ls)) as [Hr | Hr].
  - right. apply IH. exact Hr.
  - destruct Hn as [Hx | Hn]; [| contradiction].
    rewrite Hx, String.eqb_refl.
    destruct (Hinv ls x) as [-> | H]; [left; reflexivity | right; exact H].
Qed.

Lemma build_gen_bus (data : Data) (horizon : Z) (nseg : nat) (M : UCModel) :
  build_uc_model data horizon nseg = inr M ->
  forall g, In g (map g_name (d_gens data)) ->
  In (g_bus (gen_of (d_gens data) g)) (default [] (d_buses data)).
Proof.
  intros HM g Hg. destruct (build_inv _ _ _ _ HM) as (HP & _).
  unfold build_params in HP.
  match type of HP with
  | (let* _ := ?m in _) = _ => destruct m as [e | u] eqn:Hm; cbn [bind] in HP; [discriminate |]
  end.
  assert (Hok := proj1 (mapM_is_ok _ _) (f_equal is_ok Hm) g Hg).
  unfold check_gen_bus in Hok. simpl in Hok.
  destruct (existsb _ _) eqn:E; [| discriminate].
  apply existsb_exists in E. destruct E as (b & Hb & Heq).
  apply Z.eqb_eq in Heq. rewrite Heq. apply sort_Z_In. exact Hb.
Qed.

Lemma get2_zero_ren (T B : list Z) (t b : Z) : get2 (zero_ren T B) t b == 0.
Proof.
  unfold get2, zero_ren.
  destruct (list_to_map _ !! t) as [m |] eqn:E1; simpl.
  - apply elem_of_list_to_map_2 in E1. apply list_elem_of_In, in_map_iff in E1.
    destruct E1 as (t' & Heq & _). injection Heq as _ <-.
    destruct (list_to_map _ !! b) as [q |] eqn:E2; simpl; [| reflexivity].
    apply elem_of_list_to_map_2 in E2. apply list_elem_of_In, in_map_iff in E2.
    destruct E2 as (b' & Heq & _). injection Heq as _ <-. reflexivity.
  - rewrite lookup_empty. reflexivity.
Qed.

(** System balance: if the bus list, the generator names and the line
    names have no duplicates (so the model's index lists are the sets the
    code declares) and every line ends at listed buses, every feasible point generates in each period
    exactly the total net demand: the sum over the generators of
    [p(g,t)] equals the sum over the buses of [demand(t,b) - ren(t,b)],
    the line flows cancelling out. Without renewable data the
    generation equals the total demand. *)
Theorem system_balance (data : Data) (horizon : Z) (nseg : nat) (M : UCModel)
    (σ : Var -> Q) (t : Z) :
  build_uc_model data horizon nseg = inr M -> feasible σ M ->
  In t (P_T (m_params M)) ->
  List.NoDup (default [] (d_buses data)) ->
  List.NoDup (map g_name (d_gens data)) ->
  List.NoDup (map l_name (default [] (d_lines data))) ->
  (forall ln, In ln (default [] (d_lines data)) ->
     In (l_from_bus ln) (default [] (d_buses data)) /\
     In (l_to_bus ln) (default [] (d_buses data))) ->
  qsum (map (fun g => σ (Vp g t)) (map g_name (d_gens data)))
  == qsum (map (fun b => get2 (d_demand data) t b - get2 (P_ren (m_params M)) t b)
             (default [] (d_buses data))) /\
  (d_renewable data = None ->
   qsum (map (fun g => σ (Vp g t)) (map g_name (d_gens data)))
   == qsum (map (fun b => get2 (d_demand data) t b) (default [] (d_buses data)))).
Proof.
  intros HM Hf Ht Hnd _ _ Hends.
  destruct (build_fields _ _ _ _ HM)
    as (_ & _ & _ & Hgens & HG & HB & Hlines & HL & Hdem).
  destruct (build_series _ _ _ _ HM) as (Hren & _).
  set (P := m_params M) in *.
  set (B := default [] (d_buses data)) in *.
  set (gen_b := fun b => qsum (map (fun g => σ (Vp g t))
                  (filter (fun g => (g_bus (gen_of (P_gens P) g) =? b)%Z) (P_G P)))).
  set (in_b := fun b => qsum (map (fun l => σ (Vflow l t))
                  (filter (fun l => (l_to_bus (line_ P l) =? b)%Z) (P_L P)))).
  set (out_b := fun b => qsum (map (fun l => σ (Vflow l t))
                  (filter (fun l => (l_from_bus (line_ P l) =? b)%Z) (P_L P)))).
  assert (Hbal : forall b, In b B ->
            get2 (d_demand data) t b - get2 (P_ren P) t b == gen_b b + in_b b - out_b b).
  { intros b Hb.
    assert (HbB : In b (P_B P)) by (rewrite HB; apply sort_Z_In; exact Hb).
    destruct (feasible_rule _ _ _ _ σ (nodal_balance P) _ (b, t) HM Hf
                ltac:(in_families) (in_BT _ _ _ HbB Ht)) as (y & Hy & Hs).
    open_con Hy Hs nodal_balance. rewrite !qsum_eval_lvar in Hs.
    unfold balance_rhs in Hs. rewrite Hdem in Hs.
    subst gen_b in_b out_b. cbv beta. lra. }
  assert (Hline : forall l, In l (P_L P) -> In (line_ P l) (default [] (d_lines data))).
  { intros l Hl. unfold line_. rewrite Hlines. apply line_of_In. rewrite <- HL. exact Hl. }
  assert (Hgen : qsum (map gen_b B) == qsum (map (fun g => σ (Vp g t)) (P_G P))).
  { apply (qsum_partition (fun g => σ (Vp g t)) (fun g => g_bus (gen_of (P_gens P) g))).
    - exact Hnd.
    - intros g Hg. rewrite Hgens. apply (build_gen_bus _ _ _ _ HM). rewrite <- HG. exact Hg. }
  assert (Hin : qsum (map in_b B) == qsum (map (fun l => σ (Vflow l t)) (P_L P))).
  { apply (qsum_partition (fun l => σ (Vflow l t)) (fun l => l_to_bus (line_ P l))).
    - exact Hnd.
    - intros l Hl. apply (Hends _ (Hline l Hl)). }
  assert (Hout : qsum (map out_b B) == qsum (map (fun l => σ (Vflow l t)) (P_L P))).
  { apply (qsum_partition (fun l => σ (Vflow l t)) (fun l => l_from_bus (line_ P l))).
    - exact Hnd.
    - intros l Hl. apply (Hends _ (Hline l Hl)). }
  assert (Hsum : qsum (map (fun b => get2 (d_demand data) t b - get2 (P_ren P) t b) B)
                 == qsum (map (fun g => σ (Vp g t)) (P_G P))).
  { rewrite (qsum_map_ext _ (fun b => (gen_b b + in_b b) - out_b b)) by exact Hbal.
    rewrite qsum_map_minus, qsum_map_plus, Hgen, Hin, Hout. ring. }
  rewrite <- HG. split; [rewrite Hsum; reflexivity |].
  intros Hnone. rewrite <- Hsum.
  apply qsum_map_ext. intros b _. rewrite Hren, Hnone. simpl.
  rewrite get2_zero_ren. ring.
Qed.

Lemma system_balance_witness :
  build_uc_model data_y 1 1 = inr model_y /\ feasible sigma_y model_y /\
  In 1%Z (P_T (m_params model_y)) /\
  List.NoDup (default [] (d_buses data_y)) /\
  List.NoDup (map g_name (d_gens data_y)) /\
  List.NoDup (map l_name (default [] (d_lines data_y))) /\
  (forall ln, In ln (default [] (d_lines data_y)) ->
     In (l_from_bus ln) (default [] (d_buses data_y)) /\
     In (l_to_bus ln) (default [] (d_buses data_y))) /\
  qsum (map (fun g => sigma_y (Vp g 1)) (map g_name (d_gens data_y)))
  == qsum (map (fun b => get2 (d_demand data_y) 1 b - get2 (P_ren (m_params model_y)) 1 b)
             (default [] (d_buses data_y))).
Proof.
  assert (H3 : In 1%Z (P_T (m_params model_y))) by in_list.
  assert (H4 : List.NoDup (default [] (d_buses data_y))).
  { cbn. constructor; [intros [H | []]; discriminate |].
    constructor; [intros [] | constructor]. }
  assert (H5 : forall ln, In ln (default [] (d_lines data_y)) ->
     In (l_from_bus ln) (default [] (d_buses data_y)) /\
     In (l_to_bus ln) (default [] (d_buses data_y))).
  { intros ln Hl. cbn in Hl. destruct Hl as [<- | []]. cbn. split; auto. }
  assert (H6 : List.NoDup (map g_name (d_gens data_y))).
  { cbn. constructor; [intros [] | constructor]. }
  assert (H7 : List.NoDup (map l_name (default [] (d_lines data_y)))).
  { cbn. constructor; [intros [] | constructor]. }
  split; [exact build_y |]. split; [exact sigma_y_feasible |].
  split; [exact H3 |]. split; [exact H4 |]. split; [exact H6 |].
  split; [exact H7 |]. split; [exact H5 |].
  exact (proj1 (system_balance data_y 1 1 model_y sigma_y 1
                  build_y sigma_y_feasible H3 H4 H6 H7 H5)).
Defined.

Lemma is_ok_bind {A B} (m : res A) (k : A -> res B) :
  is_ok (let* x := m in k x) = match m with inl _ => false | inr x => is_ok (k x) end.
Proof. destruct m; reflexivity. Qed.

Lemma is_ok_mapM_id {A} (l : list (res A)) :
  is_ok (mapM (fun c => c) l) = forallb is_ok l.
Proof.
  induction l as [| c l IH]; [reflexivity |]. simpl.
  destruct c; simpl; [reflexivity |]. rewrite <- IH. destruct (mapM _ l); reflexivity.
Qed.

Lemma is_ok_mapM_ext {A B} (f g : A -> res B) (l : list A) :
  (forall x, In x l -> is_ok (f x) = is_ok (g x)) -> is_ok (mapM f l) = is_ok (mapM g l).
Proof.
  intros H. apply Bool.eq_iff_eq_true. rewrite !mapM_is_ok.
  split; intros H' x Hx; [rewrite <- H | rewrite H]; auto.
Qed.

Lemma build_ok_series (data : Data) (dem : gmap Z (gmap Z Q))
    (ren : option (gmap Z (gmap Z Q))) (rs rns : option (gmap Z Q)) (h : Z) (n : nat) :
  is_ok (build_uc_model (set_series data dem ren rs rns) h n) = is_ok (build_uc_model data h n).
Proof.
  unfold build_uc_model, build_params, set_series. cbn [d_gens d_buses d_lines].
  match goal with
  | |- is_ok (let* _ := (let* _ := mapM (check_gen_bus ?P1) _ in _) in _)
       = is_ok (let* _ := (let* _ := mapM (check_gen_bus ?P2) _ in _) in _) =>
      replace (mapM (check_gen_bus P1) (P_G P1)) with (mapM (check_gen_bus P2) (P_G P2))
        by reflexivity;
      destruct (mapM (check_gen_bus P2) (P_G P2)); [reflexivity |];
      cbn [bind ret]; rewrite !is_ok_bind;
      change (match mapM (fun c => c) (families P1) with inl _ => false
              | inr x => is_ok (ret (mkModel P1 (min_up_idx P1) (min_down_idx P1) (concat x) (obj_expr P1))) end)
        with (is_ok (mapM (fun c => c) (families P1)));
      change (match mapM (fun c => c) (families P2) with inl _ => false
              | inr x => is_ok (ret (mkModel P2 (min_up_idx P2) (min_down_idx P2) (concat x) (obj_expr P2))) end)
        with (is_ok (mapM (fun c => c) (families P2)));
      rewrite !is_ok_mapM_id; unfold families; cbn [forallb]
  end.
  repeat apply (f_equal2 andb).
  all: first
    [ reflexivity
    | apply is_ok_mapM_ext; intros [b t] _; apply mkcon_is_ok; reflexivity
    | apply is_ok_mapM_ext; intros t _; apply mkcon_is_ok; reflexivity ].
Qed.

(** Whether the builder succeeds does not depend on the time series:
    replacing the demand, renewable and reserve series of the data by
    any others leaves success or failure of [build_uc_model] unchanged,
    since missing entries read as [0] and the series only enter
    constraint constants. *)
Theorem build_ok_independent_of_series (data : Data) (dem : gmap Z (gmap Z Q))
    (ren : option (gmap Z (gmap Z Q))) (rs rns : option (gmap Z Q)) (h : Z) (n : nat) :
  is_ok (build_uc_model (set_series data dem ren rs rns) h n) = is_ok (build_uc_model data h n).
Proof. exact (build_ok_series data dem ren rs rns h n). Qed.

(** The demonstration script's call [build_uc_model(data, 24, 8)] on the
    data of [create_demo_data] succeeds whatever the demand, renewable and
    reserve series. *)
Theorem demo_build_ok (demand renewable : gmap Z (gmap Z Q))
    (reserve_spinning reserve_nonspinning : gmap Z Q) :
  is_ok (build_uc_model
           (demo_data demand renewable reserve_spinning reserve_nonspinning) 24 8) = true.
Proof.
  change (demo_data demand renewable reserve_spinning reserve_nonspinning)
    with (set_series (demo_data ∅ ∅ ∅ ∅) demand (Some renewable)
            (Some reserve_spinning) (Some reserve_nonspinning)).
  rewrite build_ok_series. vm_compute. reflexivity.
Qed.

Lemma py_round_inject (k : Z) : py_round (inject_Z k) = k.
Proof.
  unfold py_round. rewrite Qfloor_Z.
  destruct (Qlt_le_dec (inject_Z k - inject_Z k) (1 # 2)) as [_ | H]; [reflexivity |].
  exfalso. lra.
Qed.

Lemma fix_gt_props (st : SolveState) (g : string) (t : Z) :
  ss_model (fix_gt st (g, t)) = ss_model st /\ ss_dual (fix_gt st (g, t)) = ss_dual st /\
  forall x, ss_val (fix_gt st (g, t)) x
            = if is_bin_at (g, t) x then inject_Z (py_round (ss_val st x)) else ss_val st x.
Proof.
  split; [reflexivity |]. split; [reflexivity |].
  intros x. unfold fix_gt, fix_var. cbn [ss_val].
  destruct x; cbn [is_bin_at].
  all: repeat match goal with
         | |- context [decide (?a = ?b)] =>
             let E := fresh "E" in
             destruct (decide (a = b)) as [E | E];
             [try discriminate E; try (injection E as <- <-) |]
         end.
  all: try rewrite bool_decide_true by reflexivity.
  all: try rewrite bool_decide_false by congruence.
  all: try reflexivity.
Qed.

Lemma fold_fix_gt (orig : Var -> Q) (l l0 : list (string * Z)) (st : SolveState) :
  (forall x, ss_val st x = if binvar_of l0 x then inject_Z (py_round (orig x)) else orig x) ->
  ss_model (fold_left fix_gt l st) = ss_model st /\
  ss_dual (fold_left fix_gt l st) = ss_dual st /\
  forall x, ss_val (fold_left fix_gt l st) x
            = if binvar_of (l0 ++ l)%list x then inject_Z (py_round (orig x)) else orig x.
Proof.
  revert l0 st. induction l as [| [g t] l IH]; intros l0 st Hst; cbn [fold_left].
  - rewrite app_nil_r. auto.
  - destruct (fix_gt_props st g t) as (Hm & Hd & Hv).
    destruct (IH (l0 ++ [(g, t)])%list (fix_gt st (g, t))) as (Hm' & Hd' & Hv').
    + intros x. rewrite Hv. unfold binvar_of. rewrite existsb_app. cbn [existsb].
      fold (binvar_of l0 x). rewrite Hst.
      destruct (is_bin_at (g, t) x), (binvar_of l0 x); cbn [orb];
        rewrite ?py_round_inject; reflexivity.
    + rewrite <- app_assoc in Hv'. cbn [app] in Hv'.
      rewrite Hm', Hd', Hm, Hd. auto.
Qed.

(** Fixing the binaries: [fix_binaries] sets each commitment, start-up and
    shut-down variable of [G x T] to its value rounded by Python's
    [round], leaves every other variable, the model and the duals as they
    are; rounding an already fixed value again changes nothing. *)
Theorem fix_binaries_values (st : SolveState) :
  ss_model (fix_binaries st) = ss_model st /\
  ss_dual (fix_binaries st) = ss_dual st /\
  forall x, ss_val (fix_binaries st) x
            = if binvar_of (GT (m_params (ss_model st))) x
              then inject_Z (py_round (ss_val st x)) else ss_val st x.
Proof.
  unfold fix_binaries.
  exact (fold_fix_gt (ss_val st) (GT (m_params (ss_model st))) [] st (fun x => eq_refl)).
Qed.

Lemma try_candidates_ok (backend : Backend) (tl : option Q) (cands : list string)
    (last_exc : option Exc) (st : SolveState) (n : string) (st' : SolveState) :
  try_candidates backend tl cands last_exc st = inr (n, st') <->
  exists pre post, cands = (pre ++ n :: post)%list /\
    (forall m, In m pre -> is_ok (backend m tl st) = false) /\
    backend n tl st = inr st'.
Proof.
  revert last_exc. induction cands as [| c cands IH]; intros last_exc; split.
  - discriminate.
  - intros (pre & post & Hc & _). destruct pre; discriminate.
  - simpl. destruct (backend c tl st) as [e | s] eqn:Hb.
    + intros H. apply IH in H. destruct H as (pre & post & Hc & Hpre & Hn).
      exists (c :: pre), post. split; [rewrite Hc; reflexivity |]. split; [| exact Hn].
      intros m [<- | Hm]; [rewrite Hb; reflexivity | apply Hpre; exact Hm].
    + intros H. injection H as <- <-. exists [], cands.
      split; [reflexivity |]. split; [intros m [] | exact Hb].
  - intros (pre & post & Hc & Hpre & Hn). simpl.
    destruct pre as [| m pre].
    + injection Hc as <- <-. rewrite Hn. reflexivity.
    + injection Hc as Hmc Hc. subst m.
      destruct (backend c tl st) as [e | s] eqn:Hb.
      * apply IH. exists pre, post. split; [exact Hc |]. split; [| exact Hn].
        intros m' Hm'. apply Hpre. right. exact Hm'.
      * specialize (Hpre c (or_introl eq_refl)). rewrite Hb in Hpre. discriminate.
Qed.

(** Success of [solve_uc]: it returns [(st', lmp)] exactly when the
    candidate list splits as [pre ++ n :: post] where every backend of
    [pre] fails on the model with its fresh [dual] suffix and [n] solves
    it (with the time limit), then the LP re-solve, run without time
    limit on the model with its binaries fixed, succeeds on [n] or, if
    [n] is not [glpk] and fails, on [glpk], giving [st']; and [lmp] reads
    the balance duals of [st']. *)
Theorem solve_uc_success (backend : Backend) (st : SolveState)
    (sc : option (list string)) (sn : option string) (tl : option Q)
    (st' : SolveState) (lmp : list ((Z * Z) * option Q)) :
  solve_uc backend st sc sn tl = inr (st', lmp) <->
  exists pre n post s1,
    candidates sc sn = (pre ++ n :: post)%list /\
    (forall m, In m pre -> is_ok (backend m tl (attach_dual st)) = false) /\
    backend n tl (attach_dual st) = inr s1 /\
    (backend n None (fix_binaries s1) = inr st' \/
     (n <> "glpk" /\ is_ok (backend n None (fix_binaries s1)) = false /\
      backend "glpk" None (fix_binaries s1) = inr st')) /\
    lmp = extract_lmp st'.
Proof.
  unfold solve_uc. split.
  - destruct (try_candidates _ _ _ _ _) as [e | [n s1]] eqn:Htc; [discriminate |].
    cbn [bind fst snd]. apply try_candidates_ok in Htc.
    destruct Htc as (pre & post & Hc & Hpre & Hn).
    unfold lp_resolve.
    destruct (backend n None (fix_binaries s1)) as [e | s2] eqn:Hlp.
    + destruct (negb (String.eqb n "glpk")) eqn:Hg; [| discriminate].
      destruct (backend "glpk" None (fix_binaries s1)) as [e2 | s3] eqn:Hgl;
        [discriminate |].
      cbn [bind ret snd]. intros H. injection H as <- <-.
      exists pre, n, post, s1. repeat split; auto. right. split; [| split; [rewrite Hlp; reflexivity | exact Hgl]].
      intros ->. discriminate.
    + cbn [bind ret snd]. intros H. injection H as <- <-.
      exists pre, n, post, s1. repeat split; auto.
  - intros (pre & n & post & s1 & Hc & Hpre & Hn & Hlp & ->).
    replace (try_candidates backend tl (candidates sc sn) None (attach_dual st))
      with (inr (A := Exc) (B := string * SolveState) (n, s1))
      by (symmetry; apply try_candidates_ok; exists pre, post; auto).
    cbn [bind fst snd]. unfold lp_resolve.
    destruct Hlp as [Hlp | (Hng & Hfail & Hgl)].
    + rewrite Hlp. reflexivity.
    + destruct (backend n None (fix_binaries s1)) as [e | s2]; [| discriminate].
      replace (negb (String.eqb n "glpk")) with true
        by (symmetry; apply Bool.negb_true_iff, String.eqb_neq; exact Hng).
      rewrite Hgl. reflexivity.
Qed.

(** An empty candidate list (given explicitly, with no solver name) makes
    [solve_uc] raise [RuntimeError] with the message
    ["No solver succeeded. Last error: None"], whatever the backend. *)
Theorem solve_uc_no_candidates (backend : Backend) (st : SolveState) (tl : option Q) :
  solve_uc backend st (Some []) None tl
  = inl (mkExc RuntimeError "No solver succeeded. Last error: None").
Proof. reflexivity. Qed.

Lemma lmp_get_absent (D : Z * Z -> option Q) (L : list (Z * Z)) (k : Z * Z) acc :
  ~ In k L ->
  fold_left (fun acc '(k', v) => if bool_decide (k' = k) then v else acc)
    (map (fun '(b, t) => ((b, t), D (b, t))) L) acc = acc.
Proof.
  revert acc. induction L as [| [b t] L IH]; intros acc Hk; simpl; [reflexivity |].
  rewrite bool_decide_false by (intros E; apply Hk; left; exact E).
  apply IH. intros H. apply Hk. right. exact H.
Qed.

Lemma lmp_get_map (D : Z * Z -> option Q) (L : list (Z * Z)) (k : Z * Z) :
  In k L -> lmp_get (map (fun '(b, t) => ((b, t), D (b, t))) L) k = D k.
Proof.
  unfold lmp_get. generalize (@None Q) as acc.
  induction L as [| [b t] L IH]; intros acc Hk; [destruct Hk |]. simpl.
  destruct (in_dec (fun x y : Z * Z => decide (x = y)) k L) as [HL | HL].
  - apply IH. exact HL.
  - destruct Hk as [<- | Hk]; [| contradiction].
    rewrite bool_decide_true by reflexivity. apply lmp_get_absent. exact HL.
Qed.

(** Exporting a solved model: after [solve_uc] returns [(st', lmp)], the
    rows of [lmps.csv] are, for each [(b, t)] of [B x T] in order, the
    dual of the balance constraint of [b] at [t] in [st'] ([None] when the
    solver gave none); the [lmp.get] of the export finds every key. *)
Theorem export_lmps_after_solve (backend : Backend) (st : SolveState)
    (sc : option (list string)) (sn : option string) (tl : option Q)
    (st' : SolveState) (lmp : list ((Z * Z) * option Q)) :
  solve_uc backend st sc sn tl = inr (st', lmp) ->
  export_lmps st' lmp
  = map (fun '(b, t) => (b, t, ss_dual st' (CBalance b t))) (BT (m_params (ss_model st'))).
Proof.
  unfold solve_uc.
  destruct (try_candidates _ _ _ _ _) as [e | [n s1]]; [discriminate |].
  cbn [bind fst snd].
  destruct (lp_resolve _ _ _) as [e | [n2 s2]]; [discriminate |].
  cbn [bind ret snd]. intros H. injection H as <- <-.
  unfold export_lmps, extract_lmp.
  apply map_ext_in. intros [b t] Hin.
  rewrite (lmp_get_map (fun '(b, t) => ss_dual s2 (CBalance b t))); [reflexivity | exact Hin].
Qed.

Lemma export_lmps_after_solve_witness :
  solve_uc backend_id st_c2 None None None
  = inr (fix_binaries (attach_dual st_c2), extract_lmp (fix_binaries (attach_dual st_c2))) /\
  export_lmps (fix_binaries (attach_dual st_c2)) (extract_lmp (fix_binaries (attach_dual st_c2)))
  = map (fun '(b, t) => (b, t, ss_dual (fix_binaries (attach_dual st_c2)) (CBalance b t)))
      (BT (m_params (ss_model (fix_binaries (attach_dual st_c2))))).
Proof.
  assert (H : solve_uc backend_id st_c2 None None None
    = inr (fix_binaries (attach_dual st_c2), extract_lmp (fix_binaries (attach_dual st_c2))))
    by reflexivity.
  split; [exact H |].
  exact (export_lmps_after_solve backend_id st_c2 None None None _ _ H).
Defined.
